(** * AmriTravel: plugin manager and event entry points

    A shallow embedding of [plugin-manager.js] (class [PluginManager]) and of
    the lead and booking API handlers ([api/onLead.js], [api/onBooking.js]),
    with the properties of the hook dispatcher and of the entry points that
    the design document states.

    JavaScript values are a small inductive type, objects used as maps are
    [gmap string _], and every method is a computation in a state-and-exception
    monad whose state carries the manager, the outside world the callbacks
    act on, and a trace of what was printed and which callbacks ran. *)

From Stdlib Require Import ZArith.
From stdpp Require Import base strings gmap list pretty.

Set Warnings "-register-all".
Open Scope string_scope.
Open Scope list_scope.

(** ** JavaScript values *)

(** Numbers are integers here (no NaN, no fractions); a promise is already
    settled and carries its fulfilment value or its rejection reason.
    Functions are not values of this type: callbacks are Rocq functions kept
    in the plugin records below. *)
Inductive JsValue :=
| VUndefined
| VNull
| VBool (b : bool)
| VNum (n : Z)
| VStr (s : string)
| VObj (fields : gmap string JsValue)
| VArr (items : list JsValue)
| VPromise (rejected : bool) (payload : JsValue).

(** [!v] is [negb (truthy v)]. *)
Definition truthy (v : JsValue) : bool :=
  match v with
  | VUndefined | VNull => false
  | VBool b => b
  | VNum n => negb (n =? 0)%Z
  | VStr s => negb (String.eqb s "")
  | VObj _ | VArr _ | VPromise _ _ => true
  end.

Definition nullish (v : JsValue) : bool :=
  match v with
  | VUndefined | VNull => true
  | _ => false
  end.

(** [new Error(message)] and the engine's [TypeError]s, as far as the program
    looks at them: an object with a [message]. *)
Definition mkError (message : string) : JsValue :=
  VObj {[ "message" := VStr message ]}.

(** The names every object literal inherits from [Object.prototype]. Each of
    them is bound to a function (or, for [__proto__], to the prototype object
    itself): a truthy value that is not an array and has no [push], [active],
    [instance] or [config] of its own. *)
Definition object_prototype_keys : list string :=
  [ "constructor"; "hasOwnProperty"; "isPrototypeOf"; "propertyIsEnumerable";
    "toLocaleString"; "toString"; "valueOf"; "__proto__";
    "__defineGetter__"; "__defineSetter__"; "__lookupGetter__";
    "__lookupSetter__" ].

(** What [obj[key]] finds when [obj] is an object literal used as a map. *)
Inductive Lookup (A : Type) :=
| Own (a : A)
| Inherited
| Missing.
Arguments Own {A} a.
Arguments Inherited {A}.
Arguments Missing {A}.

Definition js_lookup {A : Type} (obj : gmap string A) (key : string) : Lookup A :=
  match obj !! key with
  | Some a => Own a
  | None => if bool_decide (key ∈ object_prototype_keys) then Inherited else Missing
  end.

(** ** Outcomes and the effect monad *)

Inductive Res (A : Type) :=
| Ret (a : A)
| Throw (e : JsValue).
Arguments Ret {A} a.
Arguments Throw {A} e.

Definition M (S A : Type) : Type := S -> Res A * S.

Definition ret {S A : Type} (a : A) : M S A := fun s => (Ret a, s).

Definition throw {S A : Type} (e : JsValue) : M S A := fun s => (Throw e, s).

Definition bind {S A B : Type} (c : M S A) (k : A -> M S B) : M S B :=
  fun s =>
    match c s with
    | (Ret a, s') => k a s'
    | (Throw e, s') => (Throw e, s')
    end.

Notation "x <- c ;; k" := (bind c (fun x => k))
  (at level 20, c at level 99, k at level 200, only parsing).
Notation "c ;; k" := (bind c (fun _ => k))
  (at level 100, k at level 200, right associativity, only parsing).

(** [try { body } catch (error) { handler }] *)
Definition try_catch {S A : Type} (body : M S A) (handler : JsValue -> M S A) : M S A :=
  fun s =>
    match body s with
    | (Ret a, s') => (Ret a, s')
    | (Throw e, s') => handler e s'
    end.

Definition gets {S A : Type} (f : S -> A) : M S A := fun s => (Ret (f s), s).

Definition modify {S : Type} (f : S -> S) : M S unit := fun s => (Ret tt, f s).

Definition lift_res {S A : Type} (r : Res A) : M S A := fun s => (r, s).

(** [list.forEach(f)] and [for (const x of list)] with a body that may throw. *)
Fixpoint forEach {S A : Type} (f : A -> M S unit) (l : list A) : M S unit :=
  match l with
  | [] => ret tt
  | x :: rest => f x ;; forEach f rest
  end.

(** [v.key] for the property names the program reads from payloads and from
    caught values ([message], [name], [email], [source], [phone], ...): none
    of them is defined on a built-in prototype, so only own properties count.
    Reading a property of [undefined] or [null] is a [TypeError]. *)
Definition get_member (v : JsValue) (key : string) : Res JsValue :=
  match v with
  | VUndefined | VNull =>
      Throw (mkError ("Cannot read properties of " +:+
                      (if v is VNull then "null" else "undefined") +:+
                      " (reading '" +:+ key +:+ "')"))
  | VObj fields => Ret (default VUndefined (fields !! key))
  | _ => Ret VUndefined
  end.

(** [v.key = x] in non-strict code: a write to a primitive is dropped. *)
Definition set_member (v : JsValue) (key : string) (x : JsValue) : Res JsValue :=
  match v with
  | VUndefined | VNull =>
      Throw (mkError ("Cannot set properties of " +:+
                      (if v is VNull then "null" else "undefined") +:+
                      " (setting '" +:+ key +:+ "')"))
  | VObj fields => Ret (VObj (<[key := x]> fields))
  | _ => Ret v
  end.

(** [v[0]] *)
Definition get_first (v : JsValue) : Res JsValue :=
  match v with
  | VUndefined | VNull =>
      Throw (mkError ("Cannot read properties of " +:+
                      (if v is VNull then "null" else "undefined") +:+
                      " (reading '0')"))
  | VArr items => Ret (default VUndefined (head items))
  | VObj fields => Ret (default VUndefined (fields !! "0"))
  | VStr (String c _) => Ret (VStr (String c ""))
  | _ => Ret VUndefined
  end.

(** ** What the process does to the outside *)

(** The reply of the record store to [insert(...).select()]: [{ data, error }]. *)
Record DbReply := {
  data : JsValue;
  error : JsValue
}.

Inductive Level := LLog | LWarn | LError.

Inductive Callee :=
| CInit (plugin : string)
| CCleanup (plugin : string)
| CUpdateConfig (plugin : string)
| CHandler (plugin : string) (hookName : string).

(** What an observer of the process sees, in order: console output, and (as
    ghost events) each callback invocation, each entry into [trigger] and each
    insert sent to the record store together with what came back. *)
Inductive Event :=
| EConsole (level : Level) (text : string) (args : list JsValue)
| ECall (callee : Callee) (arg : JsValue)
| ETrigger (hookName : string) (data : JsValue)
| EInsert (table : string) (record : JsValue) (outcome : Res DbReply).

(** ** The plugin manager *)

Module PluginManager.

Section WithWorld.
Context {World : Type}.

(** A plugin callback: called with one argument, it acts on the world outside
    the manager and returns or throws. Callbacks do not call back into the
    manager. A hook entry that is not a function behaves as a callback that
    throws a [TypeError]. *)
Definition Callback : Type := JsValue -> World -> Res JsValue * World.

(** [async function (x) { ... }] whose body does not await: the call never
    throws, it returns a promise settled with the body's outcome. *)
Definition async_function (body : Callback) : Callback :=
  fun x w =>
    match body x w with
    | (Ret v, w') => (Ret (VPromise false v), w')
    | (Throw e, w') => (Ret (VPromise true e), w')
    end.

(** The plugin object handed to [register]: each member is optional. [hooks]
    lists the own properties of [plugin.hooks] in [Object.keys] order. *)
Record PluginImpl := {
  init : option Callback;
  cleanup : option Callback;
  updateConfig : option Callback;
  plugin_hooks : option (list (string * Callback))
}.

(** An entry of [this.plugins]. *)
Record PluginEntry := {
  instance : PluginImpl;
  config : gmap string JsValue;
  active : bool
}.

(** An entry of a hook's list: [{ name, callback }]. *)
Record Subscription := {
  name : string;
  callback : Callback
}.

Record Manager := {
  plugins : gmap string PluginEntry;
  activePlugins : list string;
  hooks : gmap string (list Subscription)
}.

Record St := {
  mgr : Manager;
  world : World;
  trace : list Event
}.

(** One element of the array [trigger] returns: [{ plugin, result }] or
    [{ plugin, error }]. *)
Inductive Entry :=
| EResult (plugin : string) (result : JsValue)
| EError (plugin : string) (error : JsValue).

Definition entry_plugin (e : Entry) : string :=
  match e with
  | EResult p _ | EError p _ => p
  end.

(** The entry as the object it is in the program. *)
Definition entry_value (e : Entry) : JsValue :=
  match e with
  | EResult p r => VObj {[ "plugin" := VStr p; "result" := r ]}
  | EError p m => VObj {[ "plugin" := VStr p; "error" := m ]}
  end.

(** [constructor()] *)
Definition new_manager : Manager :=
  {| plugins := ∅;
     activePlugins := [];
     hooks := {[ "onBooking" := []; "onLead" := []; "onPayment" := [];
                 "onMessage" := []; "onAdTrack" := []; "onTaskCreate" := [];
                 "onVehicleUpdate" := [] ]} |}.

Definition emit (e : Event) : M St unit :=
  modify (fun s => {| mgr := mgr s; world := world s; trace := trace s ++ [e] |}).

Definition console (level : Level) (text : string) (args : list JsValue) : M St unit :=
  emit (EConsole level text args).

Definition set_mgr (f : Manager -> Manager) : M St unit :=
  modify (fun s => {| mgr := f (mgr s); world := world s; trace := trace s |}).

(** Runs a callback on the world, recording the invocation. *)
Definition call (callee : Callee) (f : Callback) (arg : JsValue) : M St JsValue :=
  emit (ECall callee arg) ;;
  fun s =>
    let (r, w') := f arg (world s) in
    (r, {| mgr := mgr s; world := w'; trace := trace s |}).

(** Calls into collaborators that live outside the manager. *)
Definition on_world (f : World -> World) : M St unit :=
  modify (fun s => {| mgr := mgr s; world := f (world s); trace := trace s |}).

Definition ask_world {A : Type} (f : World -> A) : M St A :=
  gets (fun s => f (world s)).

Definition run_world {A : Type} (f : World -> A * World) : M St A :=
  fun s =>
    let (a, w') := f (world s) in
    (Ret a, {| mgr := mgr s; world := w'; trace := trace s |}).

Definition set_plugins (ps : gmap string PluginEntry) (m : Manager) : Manager :=
  {| plugins := ps; activePlugins := activePlugins m; hooks := hooks m |}.

Definition set_activePlugins (l : list string) (m : Manager) : Manager :=
  {| plugins := plugins m; activePlugins := l; hooks := hooks m |}.

Definition set_hooks (hs : gmap string (list Subscription)) (m : Manager) : Manager :=
  {| plugins := plugins m; activePlugins := activePlugins m; hooks := hs |}.

Definition set_active (b : bool) (p : PluginEntry) : PluginEntry :=
  {| instance := instance p; config := config p; active := b |}.

Definition set_config (c : gmap string JsValue) (p : PluginEntry) : PluginEntry :=
  {| instance := instance p; config := c; active := active p |}.

(** The body of the [forEach] in [activate]:
    [if (this.hooks[hookName]) this.hooks[hookName].push({ name, callback })]. *)
Definition subscribe (pluginName : string) (kv : string * Callback) : M St unit :=
  let (hookName, cb) := kv in
  hs <- gets (fun s => hooks (mgr s)) ;;
  match js_lookup hs hookName with
  | Own subs =>
      set_mgr (set_hooks (<[hookName := subs ++ [{| name := pluginName; callback := cb |}]]> hs))
  | Inherited =>
      throw (mkError "this.hooks[hookName].push is not a function")
  | Missing => ret tt
  end.

(** [activate(name)] *)
Definition activate (pluginName : string) : M St bool :=
  ps <- gets (fun s => plugins (mgr s)) ;;
  match js_lookup ps pluginName with
  | Missing =>
      console LError ("Plugin " +:+ pluginName +:+ " is not registered.") [] ;;
      ret false
  | Inherited =>
      throw (mkError "Cannot read properties of undefined (reading 'init')")
  | Own plugin =>
      match init (instance plugin) with
      | Some f => call (CInit pluginName) f (VObj (config plugin)) ;; ret tt
      | None => ret tt
      end ;;
      match plugin_hooks (instance plugin) with
      | Some declared => forEach (subscribe pluginName) declared
      | None => ret tt
      end ;;
      set_mgr (set_plugins (<[pluginName := set_active true plugin]> ps)) ;;
      set_mgr (fun m => set_activePlugins (activePlugins m ++ [pluginName]) m) ;;
      console LLog ("Plugin " +:+ pluginName +:+ " activated successfully.") [] ;;
      ret true
  end.

(** [deactivate(name)] *)
Definition deactivate (pluginName : string) : M St bool :=
  ps <- gets (fun s => plugins (mgr s)) ;;
  match js_lookup ps pluginName with
  | Own plugin =>
      if active plugin then
        set_mgr (fun m =>
          set_hooks (filter (fun hook => name hook ≠ pluginName) <$> hooks m) m) ;;
        match cleanup (instance plugin) with
        | Some f => call (CCleanup pluginName) f VUndefined ;; ret tt
        | None => ret tt
        end ;;
        set_mgr (set_plugins (<[pluginName := set_active false plugin]> ps)) ;;
        set_mgr (fun m =>
          set_activePlugins (filter (fun n => n ≠ pluginName) (activePlugins m)) m) ;;
        console LLog ("Plugin " +:+ pluginName +:+ " deactivated successfully.") [] ;;
        ret true
      else
        console LError ("Plugin " +:+ pluginName +:+ " is not active or not registered.") [] ;;
        ret false
  | Inherited | Missing =>
      console LError ("Plugin " +:+ pluginName +:+ " is not active or not registered.") [] ;;
      ret false
  end.

(** One turn of the loop in [trigger]: the [try]/[catch] around a handler. *)
Definition dispatch (hookName : string) (data : JsValue) (hook : Subscription) : M St Entry :=
  try_catch
    (result <- call (CHandler (name hook) hookName) (callback hook) data ;;
     ret (EResult (name hook) result))
    (fun error =>
       console LError ("Error in plugin " +:+ name hook +:+ " for hook " +:+ hookName +:+ ":")
               [error] ;;
       message <- lift_res (get_member error "message") ;;
       ret (EError (name hook) message)).

Fixpoint dispatch_all (hookName : string) (data : JsValue) (subs : list Subscription)
    (results : list Entry) : M St (list Entry) :=
  match subs with
  | [] => ret results
  | hook :: rest =>
      e <- dispatch hookName data hook ;;
      dispatch_all hookName data rest (results ++ [e])
  end.

(** [trigger(hookName, data = {})] *)
Definition trigger (hookName : string) (data : JsValue) : M St (list Entry) :=
  let data := if data is VUndefined then VObj ∅ else data in
  emit (ETrigger hookName data) ;;
  hs <- gets (fun s => hooks (mgr s)) ;;
  match js_lookup hs hookName with
  | Missing =>
      console LError ("Hook " +:+ hookName +:+ " does not exist.") [] ;;
      ret []
  | Inherited =>
      throw (mkError "this.hooks[hookName] is not iterable")
  | Own subs => dispatch_all hookName data subs []
  end.

(** [getRegisteredPlugins()]: the own keys of [this.plugins]. *)
Definition getRegisteredPlugins : M St (list string) :=
  gets (fun s => (map_to_list (plugins (mgr s))).*1).


(** [updatePluginConfig(name, config)]. For an inherited [name] the assignment
    lands on a built-in object outside the manager and nothing of the manager
    changes. *)
Definition updatePluginConfig (pluginName : string) (partial : gmap string JsValue) : M St bool :=
  ps <- gets (fun s => plugins (mgr s)) ;;
  match js_lookup ps pluginName with
  | Missing =>
      console LError ("Plugin " +:+ pluginName +:+ " is not registered.") [] ;;
      ret false
  | Inherited => ret true
  | Own plugin =>
      let merged := partial ∪ config plugin in
      set_mgr (set_plugins (<[pluginName := set_config merged plugin]> ps)) ;;
      (if active plugin then
         match updateConfig (instance plugin) with
         | Some f => call (CUpdateConfig pluginName) f (VObj merged) ;; ret tt
         | None => ret tt
         end
       else ret tt) ;;
      ret true
  end.

End WithWorld.

Arguments Callback : clear implicits.
Arguments PluginImpl : clear implicits.
Arguments PluginEntry : clear implicits.
Arguments Subscription : clear implicits.
Arguments Manager : clear implicits.
Arguments St : clear implicits.

End PluginManager.

(** ** The HTTP entry points *)

Record Request := {
  method : string;
  body : JsValue
}.

(** [res.status(status).json(json)] *)
Record Response := {
  status : Z;
  json : JsValue
}.

(** What the handlers use of the runtime and of the record store. *)
Class Runtime (World : Type) := {
  (** [Date.now()] *)
  Date_now : World -> Z;
  (** [new Date(ms).toISOString()] *)
  toISOString : Z -> string;
  (** [Math.floor(Math.random() * n)] *)
  random_below : Z -> World -> Z * World;
  (** [await supabase.from(table).insert(record).select()]: the awaited
      reply, or the reason the promise was rejected with. *)
  supabase_insert : string -> JsValue -> World -> Res DbReply * World
}.

Section EntryPoints.
Context {World : Type} `{!Runtime World}.
Import PluginManager.

(** The loop shared by [validateLeadData] and [validateBookingData]. *)
Fixpoint check_required (payload : JsValue) (requiredFields : list string) : M (St World) bool :=
  match requiredFields with
  | [] => ret true
  | field :: rest =>
      v <- lift_res (get_member payload field) ;;
      if truthy v then check_required payload rest
      else
        console LError ("Missing required field: " +:+ field) [] ;;
        ret false
  end.

(** [await supabase.from(table).insert(record).select()] *)
Definition insert_select (table : string) (record : JsValue) : M (St World) DbReply :=
  fun s =>
    let (r, w') := supabase_insert table record (world s) in
    (r, {| mgr := mgr s; world := w';
           trace := trace s ++ [EInsert table record r] |}).

End EntryPoints.

(** *** [api/onLead.js] *)

Module LeadApi.
Import PluginManager.

(** The vendor helpers of this file. Each one's body is a single
    [try]/[catch] that only logs, so it acts on the world and never fails. *)
Class Vendors (World : Type) := {
  createCRMLead : JsValue -> World -> World;
  sendEmailNotification : JsValue -> World -> World;
  sendWhatsAppNotification : JsValue -> World -> World;
  trackLeadInAdPlatform : JsValue -> World -> World
}.

Section WithWorld.
Context {World : Type} `{!Runtime World} `{!Vendors World}.

Definition validateLeadData (leadData : JsValue) : M (St World) bool :=
  check_required leadData ["name"; "email"].

Definition triggerIntegrations (leadData : JsValue) : M (St World) unit :=
  try_catch
    (pluginResults <- trigger "onLead" leadData ;;
     console LLog "Plugin results:" [VArr (entry_value <$> pluginResults)] ;;
     on_world (createCRMLead leadData) ;;
     on_world (sendEmailNotification leadData) ;;
     phone <- lift_res (get_member leadData "phone") ;;
     (if truthy phone then on_world (sendWhatsAppNotification leadData) else ret tt) ;;
     utm_source <- lift_res (get_member leadData "utm_source") ;;
     utm_medium <- lift_res (get_member leadData "utm_medium") ;;
     utm_campaign <- lift_res (get_member leadData "utm_campaign") ;;
     if truthy utm_source || truthy utm_medium || truthy utm_campaign
     then on_world (trackLeadInAdPlatform leadData)
     else ret tt)
    (fun error => console LError "Error triggering integrations:" [error]).

Definition processLead (leadData : JsValue) : M (St World) JsValue :=
  now <- ask_world Date_now ;;
  leadData <- lift_res (set_member leadData "created_at" (VStr (toISOString now))) ;;
  source <- lift_res (get_member leadData "source") ;;
  leadData <- (if truthy source then ret leadData
               else lift_res (set_member leadData "source" (VStr "website"))) ;;
  reply <- insert_select "leads" leadData ;;
  if truthy (error reply) then
    console LError "Error saving lead to database:" [error reply] ;;
    throw (mkError "Failed to save lead")
  else
    savedLead <- lift_res (get_first (data reply)) ;;
    triggerIntegrations savedLead ;;
    ret (VObj {[ "success" := VBool true; "lead" := savedLead ]}).

(** [module.exports = async (req, res) => ...] *)
Definition handler (req : Request) : M (St World) Response :=
  if negb (String.eqb (method req) "POST") then
    ret {| status := 405; json := VObj {[ "error" := VStr "Method not allowed" ]} |}
  else
    try_catch
      (let leadData := body req in
       valid <- validateLeadData leadData ;;
       if negb valid then
         ret {| status := 400; json := VObj {[ "error" := VStr "Invalid lead data" ]} |}
       else
         result <- processLead leadData ;;
         ret {| status := 200; json := result |})
      (fun error =>
         console LError "Error processing lead:" [error] ;;
         ret {| status := 500; json := VObj {[ "error" := VStr "Internal server error" ]} |}).

End WithWorld.
End LeadApi.

(** *** [api/onBooking.js] *)

Module BookingApi.
Import PluginManager.

Class Vendors (World : Type) := {
  sendWhatsAppNotification : JsValue -> World -> World;
  createCRMLead : JsValue -> World -> World;
  sendEmailNotification : JsValue -> World -> World;
  updateVehicleAvailability : JsValue -> World -> World
}.

(** [s.slice(-n)] *)
Definition slice_last (n : nat) (s : string) : string :=
  String.substring (String.length s - n) n s.

(** [s.padStart(n, '0')] *)
Definition padStart0 (n : nat) (s : string) : string :=
  String.concat "" (replicate (n - String.length s) "0") +:+ s.

Section WithWorld.
Context {World : Type} `{!Runtime World} `{!Vendors World}.

Definition validateBookingData (bookingData : JsValue) : M (St World) bool :=
  check_required bookingData
    ["vehicleId"; "pickupDate"; "returnDate"; "pickupLocation"; "returnLocation";
     "first-name"; "last-name"; "email"; "phone"].

Definition generateBookingReference : M (St World) string :=
  let prefix := "AT-" in
  now <- ask_world Date_now ;;
  let timestamp := slice_last 6 (pretty now) in
  draw <- run_world (random_below 10000) ;;
  let random := padStart0 4 (pretty draw) in
  ret (prefix +:+ timestamp +:+ random).

Definition triggerIntegrations (bookingData : JsValue) : M (St World) unit :=
  try_catch
    (pluginResults <- trigger "onBooking" bookingData ;;
     console LLog "Plugin results:" [VArr (entry_value <$> pluginResults)] ;;
     on_world (sendWhatsAppNotification bookingData) ;;
     on_world (createCRMLead bookingData) ;;
     on_world (sendEmailNotification bookingData) ;;
     on_world (updateVehicleAvailability bookingData))
    (fun error => console LError "Error triggering integrations:" [error]).

Definition processBooking (bookingData : JsValue) : M (St World) JsValue :=
  reference <- lift_res (get_member bookingData "reference") ;;
  bookingData <- (if truthy reference then ret bookingData
                  else
                    generated <- generateBookingReference ;;
                    lift_res (set_member bookingData "reference" (VStr generated))) ;;
  now <- ask_world Date_now ;;
  bookingData <- lift_res (set_member bookingData "created_at" (VStr (toISOString now))) ;;
  reply <- insert_select "bookings" bookingData ;;
  if truthy (error reply) then
    console LError "Error saving booking to database:" [error reply] ;;
    throw (mkError "Failed to save booking")
  else
    savedBooking <- lift_res (get_first (data reply)) ;;
    triggerIntegrations savedBooking ;;
    ret (VObj {[ "success" := VBool true; "booking" := savedBooking ]}).

(** [module.exports = async (req, res) => ...] *)
Definition handler (req : Request) : M (St World) Response :=
  if negb (String.eqb (method req) "POST") then
    ret {| status := 405; json := VObj {[ "error" := VStr "Method not allowed" ]} |}
  else
    try_catch
      (let bookingData := body req in
       valid <- validateBookingData bookingData ;;
       if negb valid then
         ret {| status := 400; json := VObj {[ "error" := VStr "Invalid booking data" ]} |}
       else
         result <- processBooking bookingData ;;
         ret {| status := 200; json := result |})
      (fun error =>
         console LError "Error processing booking:" [error] ;;
         ret {| status := 500; json := VObj {[ "error" := VStr "Internal server error" ]} |}).

End WithWorld.
End BookingApi.


(** *** [register] and sessions of calls *)

Module PluginRegistry.
Import PluginManager.

Section WithWorld.
Context {World : Type}.

(** [register(name, plugin, config = {})]. The warning is printed whenever
    [this.plugins[name]] is truthy, which it also is for a name inherited
    from [Object.prototype]. The assignment creates or replaces the own
    property [name], except for the name [__proto__]: there it creates no
    entry (it replaces the prototype of [this.plugins], which the manager
    record does not represent), so statements about [register] leave that
    name out. The method returns [this]. *)
Definition register (pluginName : string) (plugin : PluginImpl World)
    (config : option (gmap string JsValue)) : M (St World) unit :=
  ps <- gets (fun s => plugins (mgr s)) ;;
  match js_lookup ps pluginName with
  | Own _ | Inherited =>
      console LWarn ("Plugin " +:+ pluginName +:+ " is already registered. Overwriting...") []
  | Missing => ret tt
  end ;;
  (if String.eqb pluginName "__proto__" then ret tt
   else
     set_mgr (set_plugins
                (<[pluginName := {| instance := plugin;
                                    config := default ∅ config;
                                    active := false |}]> ps))) ;;
  console LLog ("Plugin " +:+ pluginName +:+ " registered successfully.") [] ;;
  ret tt.

(** One call of a method of the manager by client code. *)
Inductive Call :=
| CallRegister (pluginName : string) (plugin : PluginImpl World)
    (config : option (gmap string JsValue))
| CallActivate (pluginName : string)
| CallDeactivate (pluginName : string)
| CallTrigger (hookName : string) (data : JsValue)
| CallUpdatePluginConfig (pluginName : string) (partial : gmap string JsValue).

(** The state a call leaves, whether it returned or threw. *)
Definition after_call (c : Call) (s : St World) : St World :=
  match c with
  | CallRegister n p cfg => (register n p cfg s).2
  | CallActivate n => (activate n s).2
  | CallDeactivate n => (deactivate n s).2
  | CallTrigger h d => (trigger h d s).2
  | CallUpdatePluginConfig n partial => (updatePluginConfig n partial s).2
  end.

(** A client that makes the calls one after the other, carrying on after a
    call that threw. *)
Definition after_calls (cs : list Call) (s : St World) : St World :=
  foldl (fun s c => after_call c s) s cs.

End WithWorld.

Arguments Call : clear implicits.

End PluginRegistry.

(** *** [api/triggerPlugin.js] *)

Module TriggerApi.
Import PluginManager.

(** What the endpoint reads of the process environment:
    [process.env.AI_ASSISTANT_API_KEY], a string when it is set. *)
Class Env (World : Type) := {
  AI_ASSISTANT_API_KEY : World -> option string
}.

(** One property of [const { hook, data, apiKey } = req.body]. *)
Definition destructure (v : JsValue) (key : string) : Res JsValue :=
  match v with
  | VUndefined | VNull =>
      Throw (mkError ("Cannot destructure property '" +:+ key +:+
                      "' of 'req.body' as it is " +:+
                      (if v is VNull then "null" else "undefined") +:+ "."))
  | _ => get_member v key
  end.

Definition validHooks : list string :=
  ["onBooking"; "onLead"; "onPayment"; "onMessage"; "onAdTrack"; "onTaskCreate";
   "onVehicleUpdate"].

Section WithWorld.
Context {World : Type} `{!Env World}.

(** [validateApiKey(apiKey)]: [===] against a string holds for the same
    string only. *)
Definition validateApiKey (apiKey : JsValue) : M (St World) bool :=
  validApiKey <- ask_world AI_ASSISTANT_API_KEY ;;
  match validApiKey with
  | None | Some "" =>
      console LError "No API key configured" [] ;;
      ret false
  | Some valid =>
      ret (if apiKey is VStr given then String.eqb given valid else false)
  end.

(** [validateHook(hook)]: [validHooks.includes(hook)] holds for a string of
    the list only. *)
Definition validateHook (hook : JsValue) : M (St World) bool :=
  if negb (truthy hook) then
    console LError "No hook name provided" [] ;;
    ret false
  else
    ret (if hook is VStr hookName then bool_decide (hookName ∈ validHooks) else false).

(** [module.exports = async (req, res) => ...]. Past [validateHook] the hook
    is a string, so the last branch of the [match] is never taken. *)
Definition handler (req : Request) : M (St World) Response :=
  if negb (String.eqb (method req) "POST") then
    ret {| status := 405; json := VObj {[ "error" := VStr "Method not allowed" ]} |}
  else
    try_catch
      (hook <- lift_res (destructure (body req) "hook") ;;
       data <- lift_res (destructure (body req) "data") ;;
       apiKey <- lift_res (destructure (body req) "apiKey") ;;
       authorized <- validateApiKey apiKey ;;
       if negb authorized then
         ret {| status := 401; json := VObj {[ "error" := VStr "Unauthorized" ]} |}
       else
         valid <- validateHook hook ;;
         if negb valid then
           ret {| status := 400; json := VObj {[ "error" := VStr "Invalid hook name" ]} |}
         else
           match hook with
           | VStr hookName =>
               results <- trigger hookName (if truthy data then data else VObj ∅) ;;
               ret {| status := 200;
                      json := VObj {[ "success" := VBool true;
                                      "hook" := hook;
                                      "results" := VArr (entry_value <$> results) ]} |}
           | _ => throw (mkError "hook is not a string")
           end)
      (fun error =>
         console LError "Error triggering plugin:" [error] ;;
         ret {| status := 500; json := VObj {[ "error" := VStr "Internal server error" ]} |}).

End WithWorld.
End TriggerApi.
(** ** Vocabulary of the statements *)

Section Vocabulary.
Context {World : Type}.
Import PluginManager.

(** What the [catch] block of [trigger] stores under [error]. *)
Definition message_of (thrown : JsValue) : JsValue :=
  match get_member thrown "message" with
  | Ret m => m
  | Throw _ => VUndefined
  end.

(** The entry that stands for a handler's outcome: its return value under
    [result], or the message of what it threw under [error]. *)
Definition entry_of (pluginName : string) (outcome : Res JsValue) : Entry :=
  match outcome with
  | Ret v => EResult pluginName v
  | Throw e => EError pluginName (message_of e)
  end.

Definition entries_of (outcomes : list (string * Res JsValue)) : list Entry :=
  (fun nr => entry_of nr.1 nr.2) <$> outcomes.

(** An outcome the [catch] block can write down: anything but a thrown
    [undefined] or [null]. *)
Definition recordable (outcome : Res JsValue) : Prop :=
  match outcome with
  | Ret _ => True
  | Throw e => nullish e = false
  end.

(** The handlers of a hook called one after the other on the same payload,
    each in the world the previous one left: every plugin's own outcome. *)
Fixpoint run_handlers (data : JsValue) (subs : list (Subscription World)) (w : World)
    : list (string * Res JsValue) * World :=
  match subs with
  | [] => ([], w)
  | hook :: rest =>
      let (r, w1) := callback hook data w in
      let (rs, w2) := run_handlers data rest w1 in
      ((name hook, r) :: rs, w2)
  end.

(** The payload a handler sees: [data = {}] fills in for [undefined]. *)
Definition payload (data : JsValue) : JsValue :=
  if data is VUndefined then VObj ∅ else data.

(** The subscriptions a plugin object declares for one hook. *)
Definition declared_for (hookName pluginName : string) (impl : PluginImpl World)
    : list (Subscription World) :=
  match plugin_hooks impl with
  | Some declared =>
      (fun kv : string * Callback World => {| name := pluginName; callback := kv.2 |})
        <$> filter (fun kv => kv.1 = hookName) declared
  | None => []
  end.

(** The fixed enumeration of hooks. *)
Definition hook_names : list string :=
  ["onBooking"; "onLead"; "onPayment"; "onMessage"; "onAdTrack"; "onTaskCreate";
   "onVehicleUpdate"].

(** The hook table has the seven hooks and no other key. *)
Definition hooks_wf (m : Manager World) : Prop :=
  forall k, is_Some (hooks m !! k) <-> k ∈ hook_names.

(** What the design document says an entry holds when handlers may be
    asynchronous: the settled outcome, a rejection being an error. *)
Definition settled_entry (pluginName : string) (outcome : Res JsValue) : Entry :=
  match outcome with
  | Ret (VPromise false v) => EResult pluginName v
  | Ret (VPromise true e) => EError pluginName (message_of e)
  | Ret v => EResult pluginName v
  | Throw e => EError pluginName (message_of e)
  end.

(** Every event a computation adds to the trace satisfies [P]. *)
Definition emits {A : Type} (P : Event -> Prop) (c : M (St World) A) : Prop :=
  forall s, exists new, trace (c s).2 = trace s ++ new /\ Forall P new.

(** A computation that always returns. *)
Definition returns_always {A : Type} (c : M (St World) A) : Prop :=
  forall s, exists a, (c s).1 = Ret a.

(** Events other than an insert into the record store. *)
Definition not_insert (e : Event) : Prop :=
  match e with
  | EInsert _ _ _ => False
  | _ => True
  end.

(** Events that are neither an entry into [trigger] nor a handler call. *)
Definition not_hook_activity (e : Event) : Prop :=
  match e with
  | ETrigger _ _ | ECall (CHandler _ _) _ => False
  | _ => True
  end.

(** Callback invocations and console output. *)
Definition call_or_console (e : Event) : Prop :=
  match e with
  | ECall _ _ | EConsole _ _ _ => True
  | _ => False
  end.

(** Console output only. *)
Definition console_only (e : Event) : Prop :=
  match e with
  | EConsole _ _ _ => True
  | _ => False
  end.

(** The record store refused the insert: the reply carries an error, or the
    request itself failed. *)
Definition insert_failed (outcome : Res DbReply) : Prop :=
  match outcome with
  | Ret reply => truthy (error reply) = true
  | Throw _ => True
  end.

(** In the events of one request, every entry into [trigger] comes after an
    insert that the record store answered without error, and the payload of
    the hook is the row the store returned. *)
Definition persisted_before_hooks (new : list Event) : Prop :=
  forall before hookName d after,
    new = before ++ ETrigger hookName d :: after ->
    exists table record reply saved,
      EInsert table record (Ret reply) ∈ before
      /\ truthy (error reply) = false
      /\ get_first (data reply) = Ret saved
      /\ d = payload saved.

(** [payload.field], [undefined] when there is none. *)
Definition field_of (v : JsValue) (key : string) : JsValue :=
  match get_member v key with
  | Ret x => x
  | Throw _ => VUndefined
  end.

(** The three ways the events of one request can look, with the status that
    goes with each: nothing but console output; a failed request after an
    insert; or an insert answered without error, followed by the hook on the
    row that came back. *)
Definition request_shape (hookName : string) (resp : Response) (new : list Event) : Prop :=
  (status resp ≠ 200%Z /\ Forall console_only new)
  \/ (exists table record outcome rest,
        new = EInsert table record outcome :: rest
        /\ Forall console_only rest
        /\ status resp = 500%Z)
  \/ (exists table record reply saved rest,
        new = EInsert table record (Ret reply) :: ETrigger hookName (payload saved) :: rest
        /\ truthy (error reply) = false
        /\ get_first (data reply) = Ret saved
        /\ Forall call_or_console rest
        /\ status resp = 200%Z).

(** What [processLead] hands to the record store for a body with the given
    fields at the given time: the body, stamped, and with the default source
    when it names none. *)
Definition lead_record `{!Runtime World} (fields : gmap string JsValue) (now : Z)
    : gmap string JsValue :=
  let stamped := <["created_at" := VStr (toISOString now)]> fields in
  if truthy (default VUndefined (stamped !! "source")) then stamped
  else <["source" := VStr "website"]> stamped.

End Vocabulary.


(** ** Vocabulary of the further statements *)

Section MoreVocabulary.
Context {World : Type}.
Import PluginManager.

(** Every subscription and every name on the active list belongs to a plugin
    that has an entry in the registry. *)
Definition subscribers_registered (m : Manager World) : Prop :=
  (forall h subs hook,
     hooks m !! h = Some subs -> hook ∈ subs -> is_Some (plugins m !! name hook))
  /\ (forall n, n ∈ activePlugins m -> is_Some (plugins m !! n)).

(** A state that differs from [s] by console output only. *)
Definition only_logged (s s' : St World) : Prop :=
  mgr s' = mgr s /\ world s' = world s
  /\ exists new, trace s' = trace s ++ new /\ Forall console_only new.

(** The two steps of [activate] that can throw: the call of [init] and the
    [forEach] over the declared hooks. *)
Definition init_step (pluginName : string) (p : PluginEntry World) : M (St World) unit :=
  match init (instance p) with
  | Some f => call (CInit pluginName) f (VObj (config p)) ;; ret tt
  | None => ret tt
  end.

Definition subscribe_step (pluginName : string) (p : PluginEntry World) : M (St World) unit :=
  match plugin_hooks (instance p) with
  | Some declared => forEach (subscribe pluginName) declared
  | None => ret tt
  end.

(** What one call may do to the manager: the hook table keeps its keys, no
    registry entry disappears, and whatever is new on a hook's list or on the
    active list goes under the name of a registered plugin. *)
Definition grows_registered (m m' : Manager World) : Prop :=
  (forall k, is_Some (hooks m' !! k) <-> is_Some (hooks m !! k))
  /\ (forall n, is_Some (plugins m !! n) -> is_Some (plugins m' !! n))
  /\ (forall h subs' hook,
        hooks m' !! h = Some subs' -> hook ∈ subs' ->
        (exists subs, hooks m !! h = Some subs /\ hook ∈ subs)
        \/ is_Some (plugins m !! name hook))
  /\ (forall n, n ∈ activePlugins m' -> n ∈ activePlugins m \/ is_Some (plugins m !! n)).

(** Calls the model follows: all but a registration or a config update under
    the name [__proto__], which act on [Object.prototype] (see [register]). *)
Definition modelled (c : PluginRegistry.Call World) : Prop :=
  match c with
  | PluginRegistry.CallRegister n _ _ => n ≠ "__proto__"
  | PluginRegistry.CallUpdatePluginConfig n _ => n ≠ "__proto__"
  | _ => True
  end.

End MoreVocabulary.

(** ** Vocabulary of the statements on the entry points *)

Section EntryVocabulary.
Context {World : Type} `{!Runtime World}.

(** The reference made from a timestamp and a random draw. *)
Definition booking_reference (now draw : Z) : string :=
  "AT-" +:+ BookingApi.slice_last 6 (pretty now) +:+ BookingApi.padStart0 4 (pretty draw).

(** What [processBooking] hands to the record store for a body with the given
    fields, and the world at that moment: the body keeps a truthy reference
    and gets a generated one otherwise (which costs a random draw), then it is
    stamped. *)
Definition booking_record (fields : gmap string JsValue) (w : World)
    : gmap string JsValue * World :=
  if truthy (default VUndefined (fields !! "reference")) then
    (<["created_at" := VStr (toISOString (Date_now w))]> fields, w)
  else
    let (draw, w') := random_below 10000 w in
    (<["created_at" := VStr (toISOString (Date_now w'))]>
       (<["reference" := VStr (booking_reference (Date_now w) draw)]> fields),
     w').

(** The fields a booking must have. *)
Definition booking_required : list string :=
  ["vehicleId"; "pickupDate"; "returnDate"; "pickupLocation"; "returnLocation";
   "first-name"; "last-name"; "email"; "phone"].

End EntryVocabulary.

Section TriggerVocabulary.
Context {World : Type} `{!TriggerApi.Env World}.

(** The key a request carries is the configured one, and one is configured. *)
Definition key_accepted (apiKey : JsValue) (w : World) : Prop :=
  exists key,
    key ≠ "" /\ TriggerApi.AI_ASSISTANT_API_KEY w = Some key /\ apiKey = VStr key.

(** The hook a request names is one of the seven. *)
Definition hook_accepted (hook : JsValue) : Prop :=
  exists hookName, hook = VStr hookName /\ hookName ∈ hook_names.

(** [data || {}] *)
Definition data_or_empty (data : JsValue) : JsValue :=
  if truthy data then data else VObj ∅.

End TriggerVocabulary.
(** ** Example plugins and states *)

Module Examples.
Import PluginManager.

(** The example world counts the callbacks that have run. *)
Definition returns (v : JsValue) : Callback nat := fun _ w => (Ret v, S w).

Definition throws (e : JsValue) : Callback nat := fun _ w => (Throw e, S w).

Definition plugin_with (declared : list (string * Callback nat)) : PluginImpl nat :=
  {| init := None; cleanup := None; updateConfig := None;
     plugin_hooks := Some declared |}.

Definition registered (impl : PluginImpl nat) : PluginEntry nat :=
  {| instance := impl; config := ∅; active := false |}.

Definition state_of (m : Manager nat) : St nat :=
  {| mgr := m; world := 0; trace := [] |}.

(** A fresh manager whose hook [hookName] already has the given list. *)
Definition subscribed (hookName : string) (subs : list (Subscription nat)) : St nat :=
  state_of (set_hooks (<[hookName := subs]> (hooks new_manager)) new_manager).

Definition crm : Subscription nat :=
  {| name := "crm"; callback := returns (VStr "lead created") |}.

(** [() => { throw null }] *)
Definition faulty : Subscription nat :=
  {| name := "faulty"; callback := throws VNull |}.

(** [async () => { throw new Error("boom") }] *)
Definition wasapbot : Subscription nat :=
  {| name := "wasapbot";
     callback := async_function (fun _ w => (Throw (mkError "boom"), S w)) |}.

(** [async () => ({ success: true })] *)
Definition greenmatrix : Subscription nat :=
  {| name := "greenmatrix";
     callback := async_function (fun _ w => (Ret (VObj {[ "success" := VBool true ]}), S w)) |}.

(** A messaging plugin with every optional member. *)
Definition whatsapp : PluginImpl nat :=
  {| init := Some (returns VUndefined);
     cleanup := Some (returns VUndefined);
     updateConfig := Some (returns VUndefined);
     plugin_hooks := Some [("onBooking", returns (VStr "sent"));
                           ("onLead", returns (VStr "greeted"))] |}.

(** A plugin whose booking handler fails. *)
Definition boostspace : PluginImpl nat :=
  plugin_with [("onBooking", throws (mkError "CRM down"))].

(** A plugin whose [init] and [cleanup] both throw. *)
Definition fragile : PluginImpl nat :=
  {| init := Some (throws (mkError "init failed"));
     cleanup := Some (throws (mkError "cleanup failed"));
     updateConfig := None;
     plugin_hooks := Some [("onBooking", returns (VStr "ok"))] |}.

(** A plugin that activates but whose [cleanup] throws. *)
Definition leaky : PluginImpl nat :=
  {| init := None;
     cleanup := Some (throws (mkError "cleanup failed"));
     updateConfig := None;
     plugin_hooks := Some [("onBooking", returns (VStr "ok"))] |}.

Definition uchat_config : gmap string JsValue :=
  {[ "apiKey" := VStr "y"; "flowId" := VStr "z" ]}.

(** The registry after the plugins have been registered. *)
Definition office : St nat :=
  state_of
    {| plugins := {[ "whatsapp" := registered whatsapp;
                     "boostspace" := registered boostspace;
                     "leaky" := registered leaky;
                     "fragile" := registered fragile;
                     "uchat" := {| instance := whatsapp; config := uchat_config;
                                   active := false |} ]};
       activePlugins := [];
       hooks := hooks new_manager |}.

(** The state an operation leaves behind, for chaining examples. *)
Definition after {A : Type} (c : M (St nat) A) (s : St nat) : St nat := (c s).2.

End Examples.

(** ** Further example plugins and states *)

Module Examples2.
Import PluginManager PluginRegistry.

(** A subscription whose handler throws an [Error]. *)
Definition failing : Subscription nat :=
  {| name := "boostspace"; callback := Examples.throws (mkError "CRM down") |}.

(** A plugin with a misspelt hook name. *)
Definition typo : PluginImpl nat :=
  Examples.plugin_with [("onBoking", Examples.returns (VStr "never called"));
                        ("onLead", Examples.returns (VStr "greeted"))].

(** A plugin that declares a handler under an inherited name. *)
Definition misnamed : PluginImpl nat :=
  Examples.plugin_with [("onBooking", Examples.returns (VStr "ok"));
                        ("constructor", Examples.returns (VStr "never called"));
                        ("onLead", Examples.returns (VStr "never subscribed"))].

Definition fresh : St nat := Examples.state_of new_manager.

(** A session: two registrations, an activation, a dispatch under an
    inherited name (which throws), a second registration of a live plugin and
    an attempt to deactivate it. *)
Definition session : list (Call nat) :=
  [ CallRegister "whatsapp" Examples.whatsapp None;
    CallRegister "typo" typo (Some {[ "apiKey" := VStr "k" ]});
    CallActivate "whatsapp";
    CallTrigger "constructor" VUndefined;
    CallRegister "whatsapp" Examples.whatsapp None;
    CallDeactivate "whatsapp";
    CallUpdatePluginConfig "typo" {[ "apiKey" := VStr "x" ]} ].

(** The registry with [typo] and [misnamed] registered. *)
Definition shop : St nat :=
  after_calls [ CallRegister "typo" typo None;
                CallRegister "misnamed" misnamed None;
                CallRegister "whatsapp" Examples.whatsapp None;
                CallRegister "boostspace" Examples.boostspace None ] fresh.

End Examples2.


(** ** Example runtime, vendors and requests *)

Module Examples3.
Import PluginManager.

(** A runtime over the example world: the clock advances with the world, the
    draws are fixed by it, and the record store accepts every insert and
    returns the record with an [id]. *)
Definition accepting : Runtime nat :=
  {| Date_now := fun w => (1700000000000 + Z.of_nat w)%Z;
     toISOString := fun ms => "T" +:+ pretty ms;
     random_below := fun n w => ((Z.of_nat w * 7919 + 42) mod n, S w)%Z;
     supabase_insert := fun table record w =>
       (Ret {| data := VArr [match record with
                             | VObj fields => VObj (<["id" := VNum (Z.of_nat w)]> fields)
                             | _ => record
                             end];
               error := VNull |}, S w) |}.

Definition lead_vendors : LeadApi.Vendors nat :=
  {| LeadApi.createCRMLead := fun _ w => S w;
     LeadApi.sendEmailNotification := fun _ w => S w;
     LeadApi.sendWhatsAppNotification := fun _ w => S w;
     LeadApi.trackLeadInAdPlatform := fun _ w => S w |}.

Definition booking_vendors : BookingApi.Vendors nat :=
  {| BookingApi.sendWhatsAppNotification := fun _ w => S w;
     BookingApi.createCRMLead := fun _ w => S w;
     BookingApi.sendEmailNotification := fun _ w => S w;
     BookingApi.updateVehicleAvailability := fun _ w => S w |}.

(** An environment in which the endpoint's key is set. *)
Definition keyed : TriggerApi.Env nat :=
  {| TriggerApi.AI_ASSISTANT_API_KEY := fun _ => Some "s3cret" |}.

Definition jane : gmap string JsValue :=
  {[ "name" := VStr "Jane"; "email" := VStr "jane@x.com" ]}.

Definition anonymous : gmap string JsValue :=
  {[ "name" := VStr "Jane" ]}.

Definition rental : gmap string JsValue :=
  {[ "vehicleId" := VNum 7; "pickupDate" := VStr "2024-05-01";
     "returnDate" := VStr "2024-05-03"; "pickupLocation" := VStr "KLIA";
     "returnLocation" := VStr "KLIA"; "first-name" := VStr "Jane";
     "last-name" := VStr "Doe"; "email" := VStr "jane@x.com";
     "phone" := VStr "0123456789" ]}.

Definition post (body : JsValue) : Request := {| method := "POST"; body := body |}.

(** A call of the endpoint with the key, for the given hook. *)
Definition call_hook (hook : string) : Request :=
  post (VObj {[ "hook" := VStr hook; "apiKey" := VStr "s3cret" ]}).

(** A manager with a lead handler subscribed. *)
Definition listening : St nat :=
  Examples.subscribed "onLead" [Examples.crm].

End Examples3.
(** ** Running the monad *)

(** Closes an equation between closed terms by evaluating both sides. *)
Ltac by_computation := vm_compute; reflexivity.
Ltac by_computation_ne := vm_compute; discriminate.

Lemma bind_run {S A B : Type} (c : M S A) (k : A -> M S B) (s : S) :
  bind c k s =
    match c s with
    | (Ret a, s') => k a s'
    | (Throw e, s') => (Throw e, s')
    end.
Proof. reflexivity. Qed.

(** A computation whose result is known returns that result and the state it
    leaves. *)
Lemma returned {S A : Type} (x : Res A * S) (a : A) :
  x.1 = Ret a -> x = (Ret a, x.2).
Proof. destruct x as [r s]. cbn. by intros ->. Qed.

Lemma bind_lift_res {S A B : Type} (r : Res A) (k : A -> M S B) (s : S) :
  bind (lift_res r) k s =
    match r with
    | Ret a => k a s
    | Throw e => (Throw e, s)
    end.
Proof. by destruct r. Qed.

Lemma try_catch_run {S A : Type} (body : M S A) (handler : JsValue -> M S A) (s : S) :
  try_catch body handler s =
    match body s with
    | (Ret a, s') => (Ret a, s')
    | (Throw e, s') => handler e s'
    end.
Proof. reflexivity. Qed.

(** ** Properties of the hook dispatcher *)

Section Dispatcher.
Context {World : Type}.
Import PluginManager.
Implicit Types (s : St World) (subs : list (Subscription World)) (hook : Subscription World).

Lemma dispatch_run hookName data hook s :
  dispatch hookName data hook s =
    let (r, w') := callback hook data (world s) in
    let called := trace s ++ [ECall (CHandler (name hook) hookName) data] in
    match r with
    | Ret v =>
        (Ret (EResult (name hook) v), {| mgr := mgr s; world := w'; trace := called |})
    | Throw e =>
        let logged :=
          called ++ [EConsole LError
                       ("Error in plugin " +:+ name hook +:+ " for hook " +:+ hookName +:+ ":")
                       [e]] in
        match get_member e "message" with
        | Ret m => (Ret (EError (name hook) m), {| mgr := mgr s; world := w'; trace := logged |})
        | Throw t => (Throw t, {| mgr := mgr s; world := w'; trace := logged |})
        end
    end.
Proof.
  cbv [dispatch try_catch bind call console emit modify ret lift_res].
  cbn [mgr world trace].
  destruct (callback hook data (world s)) as [[v|e] w']; [reflexivity|].
  cbn [mgr world trace].
  destruct (get_member e "message"); reflexivity.
Qed.

Lemma recordable_message e :
  nullish e = false -> get_member e "message" = Ret (message_of e).
Proof.
  unfold message_of. destruct e; cbn; try reflexivity; discriminate.
Qed.

(** The loop of [trigger] on handlers whose outcomes can all be written down:
    it returns one entry per subscription, in order, touches nothing of the
    manager and leaves the world as the handlers left it. *)
Lemma dispatch_all_recordable hookName data subs : forall acc s,
  Forall (fun nr => recordable nr.2) (run_handlers data subs (world s)).1 ->
  exists s',
    dispatch_all hookName data subs acc s
      = (Ret (acc ++ entries_of (run_handlers data subs (world s)).1), s')
    /\ mgr s' = mgr s
    /\ world s' = (run_handlers data subs (world s)).2
    /\ exists new, trace s' = trace s ++ new.
Proof.
  induction subs as [|hook rest IH]; intros acc s Hrec.
  - exists s. cbn. rewrite app_nil_r. repeat split; try reflexivity.
    exists []. by rewrite app_nil_r.
  - cbn [dispatch_all]. unfold bind at 1. rewrite dispatch_run.
    cbn [run_handlers] in Hrec |- *.
    destruct (callback hook data (world s)) as [r w1].
    destruct (run_handlers data rest w1) as [rs w2] eqn:Hrest.
    cbn [fst snd] in Hrec |- *. apply Forall_cons in Hrec as [Hr Hrs].
    destruct r as [v|e]; cbn [snd recordable] in Hr.
    + set (s1 := {| mgr := mgr s; world := w1; trace := _ |}).
      destruct (IH (acc ++ [EResult (name hook) v]) s1) as (s' & Hrun & Hm & Hw & new & Ht).
      { cbn [world s1]. by rewrite Hrest. }
      exists s'. cbn [world s1] in Hrun, Hw. rewrite Hrest in Hrun, Hw.
      cbn [fst snd] in Hrun, Hw. rewrite Hrun, <- app_assoc.
      repeat split; try done.
      exists (ECall (CHandler (name hook) hookName) data :: new).
      rewrite Ht. cbn [trace s1]. by rewrite <- app_assoc.
    + cbn zeta. rewrite (recordable_message e Hr).
      set (s1 := {| mgr := mgr s; world := w1; trace := _ |}).
      destruct (IH (acc ++ [EError (name hook) (message_of e)]) s1)
        as (s' & Hrun & Hm & Hw & new & Ht).
      { cbn [world s1]. by rewrite Hrest. }
      exists s'. cbn [world s1] in Hrun, Hw. rewrite Hrest in Hrun, Hw.
      cbn [fst snd] in Hrun, Hw. rewrite Hrun, <- app_assoc.
      repeat split; try done.
      eexists. rewrite Ht. cbn [trace s1]. rewrite <- !app_assoc. reflexivity.
Qed.

Lemma dispatch_all_app hookName data subs1 subs2 : forall acc s,
  dispatch_all hookName data (subs1 ++ subs2) acc s
    = (mid <- dispatch_all hookName data subs1 acc ;;
       dispatch_all hookName data subs2 mid) s.
Proof.
  induction subs1 as [|hook rest IH]; intros acc s; [reflexivity|].
  cbn [app dispatch_all]. unfold bind.
  destruct (dispatch hookName data hook s) as [[e|t] s1]; [|reflexivity].
  rewrite IH. reflexivity.
Qed.

Lemma run_handlers_app data subs1 subs2 w :
  run_handlers data (subs1 ++ subs2) w =
    let (rs1, w1) := run_handlers data subs1 w in
    let (rs2, w2) := run_handlers data subs2 w1 in
    (rs1 ++ rs2, w2).
Proof.
  revert w. induction subs1 as [|hook rest IH]; intros w; cbn [app run_handlers].
  - by destruct (run_handlers data subs2 w).
  - destruct (callback hook data w) as [r w1]. rewrite IH.
    destruct (run_handlers data rest w1) as [rs1 w2].
    by destruct (run_handlers data subs2 w2).
Qed.

Lemma run_handlers_names data subs w :
  (run_handlers data subs w).1.*1 = name <$> subs.
Proof.
  revert w. induction subs as [|hook rest IH]; intros w; [reflexivity|].
  cbn [run_handlers]. destruct (callback hook data w) as [r w1].
  specialize (IH w1). destruct (run_handlers data rest w1) as [rs w2].
  cbn in IH |- *. by rewrite IH.
Qed.

Lemma entries_of_plugins outcomes :
  entry_plugin <$> entries_of outcomes = outcomes.*1.
Proof.
  unfold entries_of. induction outcomes as [|[n [v|e]] rest IH]; cbn; by rewrite ?IH.
Qed.

(** [trigger] on a hook of the table is the loop over its subscriptions. *)
Lemma trigger_own hookName data subs s :
  hooks (mgr s) !! hookName = Some subs ->
  trigger hookName data s =
    dispatch_all hookName (payload data) subs []
      {| mgr := mgr s; world := world s;
         trace := trace s ++ [ETrigger hookName (payload data)] |}.
Proof.
  intros Hsubs. cbv [trigger bind emit modify gets js_lookup].
  cbn [mgr world trace]. rewrite Hsubs. reflexivity.
Qed.

(** When no handler throws [undefined] or [null], [trigger] returns one entry
    per subscription, in subscription order, each made from that handler's
    own outcome; the manager is as before. *)
Lemma trigger_recordable hookName data subs s :
  hooks (mgr s) !! hookName = Some subs ->
  Forall (fun nr => recordable nr.2) (run_handlers (payload data) subs (world s)).1 ->
  exists s',
    trigger hookName data s
      = (Ret (entries_of (run_handlers (payload data) subs (world s)).1), s')
    /\ mgr s' = mgr s
    /\ world s' = (run_handlers (payload data) subs (world s)).2
    /\ exists new, trace s' = trace s ++ new.
Proof.
  intros Hsubs Hrec. rewrite (trigger_own _ _ _ _ Hsubs).
  set (s0 := {| mgr := mgr s; world := world s; trace := _ |}).
  destruct (dispatch_all_recordable hookName (payload data) subs [] s0 Hrec)
    as (s' & Hrun & Hm & Hw & new & Ht).
  exists s'. repeat split; try done.
  exists (ETrigger hookName (payload data) :: new).
  rewrite Ht. cbn [trace s0]. by rewrite <- app_assoc.
Qed.

(** X2: failure isolation, for handlers that throw anything but [undefined]
    or [null]: the result has one entry per subscription; the entry at position
    [k] is made from the outcome of the [k]-th handler alone, so a handler
    that throws an error with message [m] gets [{ plugin, error: m }] and the
    others keep their own entries. *)
Lemma trigger_isolates_failures hookName data subs s :
  hooks (mgr s) !! hookName = Some subs ->
  Forall (fun nr => recordable nr.2) (run_handlers (payload data) subs (world s)).1 ->
  exists results s',
    trigger hookName data s = (Ret results, s')
    /\ length results = length subs
    /\ entry_plugin <$> results = name <$> subs
    /\ forall k pluginName outcome,
         (run_handlers (payload data) subs (world s)).1 !! k = Some (pluginName, outcome) ->
         results !! k = Some (entry_of pluginName outcome).
Proof.
  intros Hsubs Hrec.
  destruct (trigger_recordable _ _ _ _ Hsubs Hrec) as (s' & Hrun & _).
  eexists _, s'. split; [exact Hrun|].
  assert (Hnames : entry_plugin <$>
            entries_of (run_handlers (payload data) subs (world s)).1 = name <$> subs)
    by (by rewrite entries_of_plugins, run_handlers_names).
  split; [|split; [exact Hnames|]].
  - rewrite <- (length_fmap entry_plugin), Hnames. apply length_fmap.
  - intros k n r Hk. unfold entries_of. rewrite list_lookup_fmap, Hk. reflexivity.
Qed.

(** A handler that throws [undefined] or [null] defeats the [catch] block:
    reading [error.message] throws in its turn and [trigger] ends with that
    [TypeError], whatever the handlers before it did. *)
Lemma dispatch_all_nullish_throw hookName data before hook after thrown w' : forall acc s,
  Forall (fun nr => recordable nr.2) (run_handlers data before (world s)).1 ->
  callback hook data (run_handlers data before (world s)).2 = (Throw thrown, w') ->
  nullish thrown = true ->
  exists t, fst (dispatch_all hookName data (before ++ hook :: after) acc s) = Throw t.
Proof.
  intros acc s Hrec Hthrow Hnull. rewrite dispatch_all_app. unfold bind at 1.
  destruct (dispatch_all_recordable hookName data before acc s Hrec)
    as (s1 & -> & _ & Hw & _).
  cbn [dispatch_all]. unfold bind at 1. rewrite dispatch_run, Hw, Hthrow.
  destruct thrown; try discriminate; cbn; eauto.
Qed.

Lemma new_manager_wf : hooks_wf (World := World) new_manager.
Proof.
  intros k. unfold hook_names. cbn [hooks new_manager].
  rewrite <- elem_of_dom, !dom_insert_L, dom_singleton_L.
  rewrite !elem_of_union, !elem_of_singleton, !elem_of_cons, elem_of_nil.
  tauto.
Qed.

Lemma inherited_not_hook key :
  key ∈ object_prototype_keys -> key ∉ hook_names.
Proof.
  unfold object_prototype_keys, hook_names.
  rewrite !elem_of_cons, !elem_of_nil. intros Hk Hh.
  repeat (destruct Hk as [->|Hk]; [repeat (destruct Hh as [Hh|Hh]; [discriminate|]); done|]).
  done.
Qed.

(** X3: a name outside the enumeration that no object inherits: [trigger]
    logs the error and returns the empty list, and changes neither the
    manager nor the world. *)
Lemma trigger_unknown_hook hookName data s :
  hooks_wf (mgr s) ->
  hookName ∉ hook_names ->
  hookName ∉ object_prototype_keys ->
  trigger hookName data s =
    (Ret [], {| mgr := mgr s; world := world s;
                trace := trace s ++ [ETrigger hookName (payload data);
                                     EConsole LError ("Hook " +:+ hookName +:+ " does not exist.") []] |}).
Proof.
  intros Hwf Hh Hk. cbv [trigger bind emit modify gets js_lookup console ret].
  cbn [mgr world trace].
  destruct (hooks (mgr s) !! hookName) as [subs|] eqn:Hlook.
  { exfalso. apply Hh, Hwf. eauto. }
  rewrite bool_decide_eq_false_2 by done.
  cbn [mgr world trace]. by rewrite <- app_assoc.
Qed.

(** C1: a handler that throws [undefined] or [null] is not isolated: for a
    hook whose list holds such a handler (the handlers before it behaving in
    any recordable way), [trigger] itself throws and returns no result
    sequence, where the design says it returns one entry per subscription and
    never throws. *)
Theorem trigger_throws_on_nullish_throw hookName data before hook after thrown w' s :
  hooks (mgr s) !! hookName = Some (before ++ hook :: after) ->
  Forall (fun nr => recordable nr.2) (run_handlers (payload data) before (world s)).1 ->
  callback hook (payload data) (run_handlers (payload data) before (world s)).2
    = (Throw thrown, w') ->
  nullish thrown = true ->
  exists t, fst (trigger hookName data s) = Throw t.
Proof.
  intros Hsubs Hrec Hthrow Hnull. rewrite (trigger_own _ _ _ _ Hsubs).
  eapply dispatch_all_nullish_throw; cbn [world]; eauto.
Qed.

(** C2: for a hook name that is not in the enumeration but that every object
    inherits from [Object.prototype] ([constructor], [toString], ...), the
    guard [!this.hooks[hookName]] does not fire and [trigger] throws a
    [TypeError] instead of returning the empty list. *)
Theorem trigger_inherited_name_throws hookName data s :
  hooks_wf (mgr s) ->
  hookName ∈ object_prototype_keys ->
  (hookName ∉ hook_names)
  /\ trigger hookName data s =
       (Throw (mkError "this.hooks[hookName] is not iterable"),
        {| mgr := mgr s; world := world s;
           trace := trace s ++ [ETrigger hookName (payload data)] |}).
Proof.
  intros Hwf Hk. pose proof (inherited_not_hook _ Hk) as Hh. split; [exact Hh|].
  cbv [trigger bind emit modify gets js_lookup throw]. cbn [mgr world trace].
  destruct (hooks (mgr s) !! hookName) as [subs|] eqn:Hlook.
  { exfalso. apply Hh, Hwf. eauto. }
  by rewrite bool_decide_eq_true_2.
Qed.

Lemma run_handlers_async data subs : forall w,
  Forall (fun hook => exists body, callback hook = async_function body) subs ->
  Forall2 (fun hook nr => exists rejected v, nr = (name hook, Ret (VPromise rejected v)))
    subs (run_handlers data subs w).1.
Proof.
  induction subs as [|hook rest IH]; intros w Hasync; [constructor|].
  apply Forall_cons in Hasync as [[body Hbody] Hrest].
  cbn [run_handlers]. destruct (callback hook data w) as [r w1] eqn:Hcall.
  specialize (IH w1 Hrest). destruct (run_handlers data rest w1) as [rs w2].
  cbn [fst] in IH |- *. constructor; [|exact IH].
  rewrite Hbody in Hcall. unfold async_function in Hcall.
  destruct (body data w) as [[v|e] w0]; inversion Hcall; subst; eauto.
Qed.

(** C3 (as amended): [trigger] does not await. It calls the handlers one
    after the other in subscription order and returns at once; the entry of
    an asynchronous handler is [{ plugin, result: promise }] holding the
    promise the call returned, whether that promise fulfils or rejects, so a
    rejection is never turned into the entry's [error]. *)
Theorem trigger_does_not_await hookName data subs s :
  hooks (mgr s) !! hookName = Some subs ->
  Forall (fun hook => exists body, callback hook = async_function body) subs ->
  exists results s',
    trigger hookName data s = (Ret results, s')
    /\ results = entries_of (run_handlers (payload data) subs (world s)).1
    /\ Forall2 (fun hook e => exists rejected v,
                  e = EResult (name hook) (VPromise rejected v)) subs results.
Proof.
  intros Hsubs Hasync.
  pose proof (run_handlers_async (payload data) subs (world s) Hasync) as Hshape.
  destruct (trigger_recordable hookName data subs s Hsubs) as (s' & Hrun & _).
  { eapply Forall2_Forall_r; [exact Hshape|].
    apply Forall_forall. intros hook _ nr (rejected & v & ->). exact I. }
  eexists _, s'. split; [exact Hrun|]. split; [reflexivity|].
  unfold entries_of. apply Forall2_fmap_r.
  eapply Forall2_impl; [exact Hshape|].
  intros hook nr (rejected & v & ->). cbn. eauto.
Qed.

End Dispatcher.

Lemma trigger_throws_on_nullish_throw_witness :
  exists t,
    fst (PluginManager.trigger "onBooking" VUndefined
           (Examples.subscribed "onBooking" [Examples.crm; Examples.faulty])) = Throw t.
Proof.
  apply (trigger_throws_on_nullish_throw "onBooking" VUndefined
           [Examples.crm] Examples.faulty [] VNull 2).
  - by_computation.
  - repeat constructor.
  - by_computation.
  - by_computation.
Defined.

Lemma trigger_inherited_name_throws_witness :
  ("constructor" ∉ hook_names)
  /\ PluginManager.trigger "constructor" (VObj ∅) (Examples.state_of PluginManager.new_manager)
     = (Throw (mkError "this.hooks[hookName] is not iterable"),
        {| PluginManager.mgr := PluginManager.new_manager;
           PluginManager.world := 0;
           PluginManager.trace := [ETrigger "constructor" (VObj ∅)] |}).
Proof.
  apply (trigger_inherited_name_throws "constructor" (VObj ∅)
           (Examples.state_of PluginManager.new_manager)).
  - apply new_manager_wf.
  - unfold object_prototype_keys. apply elem_of_cons. by left.
Defined.

(** C3 (as stated): the entry of an asynchronous handler that rejects is not
    its settled outcome: [trigger] returns the rejected promise itself under
    [result], and no [error]. *)
Lemma trigger_leaves_rejection_unsettled :
  fst (PluginManager.trigger "onLead" (VObj ∅)
         (Examples.subscribed "onLead" [Examples.wasapbot]))
    = Ret [PluginManager.EResult "wasapbot" (VPromise true (mkError "boom"))]
  /\ fst (PluginManager.trigger "onLead" (VObj ∅)
            (Examples.subscribed "onLead" [Examples.wasapbot]))
     <> Ret (settled_entry "wasapbot" <$>
               [fst (PluginManager.callback Examples.wasapbot (VObj ∅) 0)]).
Proof.
  split; [by_computation|]. by_computation_ne.
Qed.

Lemma trigger_does_not_await_witness :
  exists results s',
    PluginManager.trigger "onBooking" (VObj ∅)
      (Examples.subscribed "onBooking" [Examples.greenmatrix; Examples.wasapbot])
      = (Ret results, s')
    /\ results = entries_of
         (run_handlers (payload (VObj ∅)) [Examples.greenmatrix; Examples.wasapbot] 0).1
    /\ Forall2 (fun hook e => exists rejected v,
                  e = PluginManager.EResult (PluginManager.name hook) (VPromise rejected v))
         [Examples.greenmatrix; Examples.wasapbot] results.
Proof.
  apply (trigger_does_not_await "onBooking" (VObj ∅)
           [Examples.greenmatrix; Examples.wasapbot]
           (Examples.subscribed "onBooking" [Examples.greenmatrix; Examples.wasapbot])).
  - by_computation.
  - repeat constructor; eexists; reflexivity.
Defined.

(** ** Properties of the plugin life cycle *)

Section Lifecycle.
Context {World : Type}.
Import PluginManager.
Implicit Types (s : St World) (p : PluginEntry World) (subs : list (Subscription World)).

Lemma subscribe_run pluginName hookName cb s :
  subscribe pluginName (hookName, cb) s =
    match js_lookup (hooks (mgr s)) hookName with
    | Own subs =>
        (Ret tt,
         {| mgr := set_hooks (<[hookName := subs ++ [{| name := pluginName; callback := cb |}]]>
                                (hooks (mgr s))) (mgr s);
            world := world s; trace := trace s |})
    | Inherited => (Throw (mkError "this.hooks[hookName].push is not a function"), s)
    | Missing => (Ret tt, s)
    end.
Proof.
  cbv [subscribe bind gets set_mgr modify throw ret]. cbn [mgr world trace].
  destruct (js_lookup (hooks (mgr s)) hookName); reflexivity.
Qed.

Lemma js_lookup_Some {A} (obj : gmap string A) key a :
  obj !! key = Some a -> js_lookup obj key = Own a.
Proof. unfold js_lookup. by intros ->. Qed.

Lemma js_lookup_Own {A} (obj : gmap string A) key a :
  js_lookup obj key = Own a -> obj !! key = Some a.
Proof.
  unfold js_lookup. destruct (obj !! key); [congruence|].
  by destruct (bool_decide _).
Qed.

Lemma js_lookup_Missing {A} (obj : gmap string A) key :
  js_lookup obj key = Missing -> obj !! key = None.
Proof. unfold js_lookup. by destruct (obj !! key). Qed.

(** The [forEach] of [activate], when it runs to its end: every declared
    handler whose hook is in the table has been pushed to the end of that
    hook's list, in the order of declaration, and nothing else has changed. *)
Lemma forEach_subscribe_returns pluginName declared : forall s s',
  forEach (subscribe pluginName) declared s = (Ret tt, s') ->
  plugins (mgr s') = plugins (mgr s)
  /\ activePlugins (mgr s') = activePlugins (mgr s)
  /\ world s' = world s
  /\ trace s' = trace s
  /\ forall h,
       hooks (mgr s') !! h =
         (fun subs => subs ++
            ((fun kv : string * Callback World => {| name := pluginName; callback := kv.2 |})
               <$> filter (fun kv => kv.1 = h) declared))
         <$> hooks (mgr s) !! h.
Proof.
  induction declared as [|[k cb] rest IH]; intros s s' Hrun.
  - cbn in Hrun. inversion Hrun; subst. repeat split; try reflexivity.
    intros h. rewrite filter_nil. cbn.
    destruct (hooks (mgr s') !! h); cbn; by rewrite ?app_nil_r.
  - cbn [forEach] in Hrun. unfold bind in Hrun. rewrite subscribe_run in Hrun.
    destruct (js_lookup (hooks (mgr s)) k) as [subs| |] eqn:Hk; [| discriminate |].
    + apply js_lookup_Own in Hk.
      apply IH in Hrun as (Hp & Ha & Hw & Ht & Hh). cbn in Hp, Ha, Hw, Ht, Hh.
      repeat split; try done.
      intros h. rewrite Hh, filter_cons. cbn [fst].
      destruct (decide (k = h)) as [->|Hne].
      * rewrite lookup_insert_eq, Hk. cbn. by rewrite <- app_assoc.
      * by rewrite lookup_insert_ne.
    + apply js_lookup_Missing in Hk.
      apply IH in Hrun as (Hp & Ha & Hw & Ht & Hh).
      repeat split; try done.
      intros h. rewrite Hh, filter_cons. cbn [fst].
      destruct (decide (k = h)) as [->|Hne]; [|done].
      by rewrite Hk.
Qed.



(** What [activate] has done when it returns. *)
Lemma activate_returns pluginName s b s' :
  activate pluginName s = (Ret b, s') ->
  match plugins (mgr s) !! pluginName with
  | None => b = false /\ mgr s' = mgr s /\ world s' = world s
  | Some p =>
      b = true
      /\ plugins (mgr s') = <[pluginName := set_active true p]> (plugins (mgr s))
      /\ activePlugins (mgr s') = activePlugins (mgr s) ++ [pluginName]
      /\ (forall h, hooks (mgr s') !! h =
            (fun subs => subs ++ declared_for h pluginName (instance p))
              <$> hooks (mgr s) !! h)
      /\ match init (instance p) with
         | Some f =>
             (exists v, f (VObj (config p)) (world s) = (Ret v, world s'))
             /\ trace s' = trace s ++
                  [ECall (CInit pluginName) (VObj (config p));
                   EConsole LLog ("Plugin " +:+ pluginName +:+ " activated successfully.") []]
         | None =>
             world s' = world s
             /\ trace s' = trace s ++
                  [EConsole LLog ("Plugin " +:+ pluginName +:+ " activated successfully.") []]
         end
  end.
Proof.
  unfold activate. unfold bind at 1. unfold gets at 1. cbn [mgr].
  unfold js_lookup at 1.
  destruct (plugins (mgr s) !! pluginName) as [p|] eqn:Hp.
  - (* the init call *)
    unfold bind at 1.
    set (after_init := match init (instance p) with
                       | Some f => _
                       | None => _ end).
    destruct (after_init s) as [[[]|e] s1] eqn:Hinit; [|discriminate].
    unfold bind at 1.
    set (subscribing := match plugin_hooks (instance p) with
                        | Some declared => _
                        | None => _ end).
    destruct (subscribing s1) as [[[]|e] s2] eqn:Hsub; [|discriminate].
    cbv [bind set_mgr modify console emit ret]. cbn [mgr world trace].
    intros Hret. inversion Hret; subst b s'. clear Hret.
    cbn [mgr world trace plugins activePlugins hooks set_plugins set_activePlugins].
    assert (Hs2 : plugins (mgr s2) = plugins (mgr s1)
                  /\ activePlugins (mgr s2) = activePlugins (mgr s1)
                  /\ world s2 = world s1 /\ trace s2 = trace s1
                  /\ forall h, hooks (mgr s2) !! h =
                       (fun subs => subs ++ declared_for h pluginName (instance p))
                         <$> hooks (mgr s1) !! h).
    { subst subscribing. unfold declared_for.
      destruct (plugin_hooks (instance p)) as [declared|].
      - by apply forEach_subscribe_returns.
      - inversion Hsub; subst. repeat split; try done.
        intros h. destruct (hooks (mgr s2) !! h); cbn; by rewrite ?app_nil_r. }
    destruct Hs2 as (Hp2 & Ha2 & Hw2 & Ht2 & Hh2).
    subst after_init. destruct (init (instance p)) as [f|].
    + cbv [bind call emit modify ret] in Hinit. cbn [mgr world trace] in Hinit.
      destruct (f (VObj (config p)) (world s)) as [[v|e] w1] eqn:Hf; [|discriminate].
      inversion Hinit; subst s1. clear Hinit. cbn [mgr world trace] in *.
      rewrite Ha2, Hw2, Ht2. repeat split; try done.
      * eauto.
      * by rewrite <- app_assoc.
    + inversion Hinit; subst s1. clear Hinit.
      rewrite Ha2, Hw2, Ht2. repeat split; done.
  - destruct (bool_decide _); [discriminate|].
    cbv [bind console emit modify ret]. cbn [mgr world trace].
    intros Hret. inversion Hret; subst. repeat split; reflexivity.
Qed.

(** A throwing [init] ends [activate] before anything of the manager has
    been touched. *)
Lemma activate_init_throws pluginName p f e w1 s :
  plugins (mgr s) !! pluginName = Some p ->
  init (instance p) = Some f ->
  f (VObj (config p)) (world s) = (Throw e, w1) ->
  activate pluginName s =
    (Throw e, {| mgr := mgr s; world := w1;
                 trace := trace s ++ [ECall (CInit pluginName) (VObj (config p))] |}).
Proof.
  intros Hp Hinit Hf. unfold activate. unfold bind at 1. unfold gets at 1. cbn [mgr].
  rewrite (js_lookup_Some _ _ _ Hp), Hinit.
  cbv [bind call emit modify ret]. cbn [mgr world trace]. by rewrite Hf.
Qed.

(** What [deactivate] does to an active plugin, whatever [cleanup] does. *)
Lemma deactivate_active pluginName p s :
  plugins (mgr s) !! pluginName = Some p ->
  active p = true ->
  let removed :=
    set_hooks (filter (fun hook => name hook ≠ pluginName) <$> hooks (mgr s)) (mgr s) in
  let finished w tr :=
    (Ret true,
     {| mgr := set_activePlugins (filter (fun n => n ≠ pluginName) (activePlugins (mgr s)))
                 (set_plugins (<[pluginName := set_active false p]> (plugins (mgr s))) removed);
        world := w;
        trace := tr ++ [EConsole LLog ("Plugin " +:+ pluginName +:+ " deactivated successfully.") []] |}) in
  deactivate pluginName s =
    match cleanup (instance p) with
    | Some g =>
        let called := trace s ++ [ECall (CCleanup pluginName) VUndefined] in
        match g VUndefined (world s) with
        | (Ret _, w1) => finished w1 called
        | (Throw e, w1) => (Throw e, {| mgr := removed; world := w1; trace := called |})
        end
    | None => finished (world s) (trace s)
    end.
Proof.
  intros Hp Hactive. unfold deactivate. unfold bind at 1. unfold gets at 1. cbn [mgr].
  rewrite (js_lookup_Some _ _ _ Hp), Hactive.
  destruct (cleanup (instance p)) as [g|].
  - cbv [bind call emit modify ret set_mgr console]. cbn [mgr world trace].
    destruct (g VUndefined (world s)) as [[v|e] w1]; reflexivity.
  - reflexivity.
Qed.

Lemma deactivate_hooks pluginName p s h :
  plugins (mgr s) !! pluginName = Some p ->
  active p = true ->
  hooks (mgr (deactivate pluginName s).2) !! h
    = filter (fun hook => name hook ≠ pluginName) <$> hooks (mgr s) !! h.
Proof.
  intros Hp Hactive. rewrite (deactivate_active _ _ _ Hp Hactive). cbv zeta.
  destruct (cleanup (instance p)) as [g|];
    [destruct (g VUndefined (world s)) as [[v|e] w1]|];
    cbn [snd mgr hooks set_hooks set_plugins set_activePlugins];
    by rewrite lookup_fmap.
Qed.

(** [trigger] never changes the manager. *)
Lemma dispatch_all_mgr hookName data subs : forall acc s,
  mgr (dispatch_all hookName data subs acc s).2 = mgr s.
Proof.
  induction subs as [|hook rest IH]; intros acc s; [reflexivity|].
  cbn [dispatch_all]. unfold bind. rewrite dispatch_run.
  destruct (callback hook data (world s)) as [[v|e] w1]; cbv beta iota zeta.
  - rewrite IH. reflexivity.
  - destruct (get_member e "message"); cbv beta iota zeta; [rewrite IH|]; reflexivity.
Qed.

Lemma trigger_mgr hookName data s :
  mgr (trigger hookName data s).2 = mgr s.
Proof.
  cbv [trigger bind emit modify gets js_lookup console ret throw]. cbn [mgr world trace].
  destruct (hooks (mgr s) !! hookName) as [subs|].
  - by rewrite dispatch_all_mgr.
  - by destruct (bool_decide _).
Qed.

(** The plugins named in the result of [trigger] are those subscribed. *)
Lemma dispatch_all_plugins hookName data subs : forall acc s results s',
  dispatch_all hookName data subs acc s = (Ret results, s') ->
  entry_plugin <$> results = (entry_plugin <$> acc) ++ (name <$> subs).
Proof.
  induction subs as [|hook rest IH]; intros acc s results s' Hrun.
  - inversion Hrun; subst. by rewrite app_nil_r.
  - cbn [dispatch_all] in Hrun. unfold bind in Hrun. rewrite dispatch_run in Hrun.
    destruct (callback hook data (world s)) as [[v|e] w1]; cbv beta iota zeta in Hrun.
    + apply IH in Hrun. rewrite Hrun, fmap_app, <- app_assoc. reflexivity.
    + destruct (get_member e "message"); cbv beta iota zeta in Hrun; [|discriminate].
      apply IH in Hrun. rewrite Hrun, fmap_app, <- app_assoc. reflexivity.
Qed.

Lemma trigger_plugins hookName data s results s' :
  trigger hookName data s = (Ret results, s') ->
  entry_plugin <$> results = name <$> default [] (hooks (mgr s) !! hookName).
Proof.
  destruct (hooks (mgr s) !! hookName) as [subs|] eqn:Hsubs.
  - rewrite (trigger_own _ _ _ _ Hsubs). intros Hrun.
    by apply dispatch_all_plugins in Hrun.
  - cbv [trigger bind emit modify gets js_lookup console ret throw]. cbn [mgr world trace].
    rewrite Hsubs. destruct (bool_decide _); [discriminate|].
    intros Hrun. by inversion Hrun.
Qed.

Lemma forEach_subscribe_succeeds pluginName declared : forall s,
  Forall (fun k => k ∉ object_prototype_keys) declared.*1 ->
  exists s', forEach (subscribe pluginName) declared s = (Ret tt, s').
Proof.
  induction declared as [|[k cb] rest IH]; intros s Hkeys; [by exists s|].
  cbn in Hkeys. apply Forall_cons in Hkeys as [Hk Hrest].
  cbn [forEach]. unfold bind. rewrite subscribe_run. unfold js_lookup.
  destruct (hooks (mgr s) !! k) as [subs|]; [by apply IH|].
  rewrite bool_decide_eq_false_2 by done. by apply IH.
Qed.


(** C4: once an activated plugin has been deactivated, no hook list holds a
    subscription under its name, and no later [trigger] on any hook returns
    an entry for it. The subscriptions are gone even if [cleanup] throws.
    Between activation and deactivation anything may happen that leaves the
    plugin's registry entry as activation left it. *)
Theorem deactivate_unsubscribes pluginName s0 s1 s1' :
  activate pluginName s0 = (Ret true, s1) ->
  plugins (mgr s1') !! pluginName = plugins (mgr s1) !! pluginName ->
  let s2 := (deactivate pluginName s1').2 in
  (forall h subs hook,
     hooks (mgr s2) !! h = Some subs -> hook ∈ subs -> name hook ≠ pluginName)
  /\ (forall s3 h data results s4,
        mgr s3 = mgr s2 ->
        trigger h data s3 = (Ret results, s4) ->
        forall e, e ∈ results -> entry_plugin e ≠ pluginName).
Proof.
  intros Hact Hsame s2.
  apply activate_returns in Hact.
  destruct (plugins (mgr s0) !! pluginName) as [p|]; [|by destruct Hact].
  destruct Hact as (_ & Hplugins & _).
  rewrite Hplugins, lookup_insert_eq in Hsame.
  assert (Hgone : forall h subs hook,
            hooks (mgr s2) !! h = Some subs -> hook ∈ subs -> name hook ≠ pluginName).
  { intros h subs hook Hsubs Hin. subst s2.
    rewrite (deactivate_hooks _ _ _ h Hsame eq_refl) in Hsubs.
    destruct (hooks (mgr s1') !! h) as [l|]; [|discriminate].
    cbn in Hsubs. inversion Hsubs; subst.
    by apply list_elem_of_filter in Hin as [Hne _]. }
  split; [exact Hgone|].
  intros s3 h data results s4 Hmgr Hrun e He.
  apply trigger_plugins in Hrun. rewrite Hmgr in Hrun.
  assert (Hname : entry_plugin e ∈ entry_plugin <$> results)
    by (apply list_elem_of_fmap; eauto).
  rewrite Hrun in Hname. apply list_elem_of_fmap in Hname as (hook & -> & Hhook).
  destruct (hooks (mgr s2) !! h) as [subs|] eqn:Hsubs; [|by apply elem_of_nil in Hhook].
  by eapply Hgone.
Qed.


(** C6 (as amended): neither life-cycle callback is guarded. A throwing
    [init] ends [activate] with that exception before any subscription is
    added and before the plugin is marked active or listed; a throwing
    [cleanup] ends [deactivate] with that exception as well, after the
    plugin's subscriptions have been removed and before it is marked inactive
    or taken off the active list. *)
Theorem lifecycle_callbacks_unguarded pluginName p s :
  plugins (mgr s) !! pluginName = Some p ->
  (forall f e w1,
     init (instance p) = Some f ->
     f (VObj (config p)) (world s) = (Throw e, w1) ->
     exists s', activate pluginName s = (Throw e, s') /\ mgr s' = mgr s)
  /\ (forall g e w1,
        active p = true ->
        cleanup (instance p) = Some g ->
        g VUndefined (world s) = (Throw e, w1) ->
        exists s',
          deactivate pluginName s = (Throw e, s')
          /\ hooks (mgr s') = (filter (fun hook => name hook ≠ pluginName) <$> hooks (mgr s))
          /\ plugins (mgr s') = plugins (mgr s)
          /\ activePlugins (mgr s') = activePlugins (mgr s)).
Proof.
  intros Hp. split.
  - intros f e w1 Hinit Hf. eexists. split.
    + by apply (activate_init_throws _ p f e w1).
    + reflexivity.
  - intros g e w1 Hactive Hcleanup Hg. eexists. split.
    + rewrite (deactivate_active _ _ _ Hp Hactive). cbv zeta. rewrite Hcleanup, Hg. reflexivity.
    + repeat split; reflexivity.
Qed.

Lemma updatePluginConfig_own pluginName partial p s :
  plugins (mgr s) !! pluginName = Some p ->
  updatePluginConfig pluginName partial s =
    let merged := partial ∪ config p in
    let stored :=
      set_plugins (<[pluginName := set_config merged p]> (plugins (mgr s))) (mgr s) in
    if active p then
      match updateConfig (instance p) with
      | Some f =>
          let called := trace s ++ [ECall (CUpdateConfig pluginName) (VObj merged)] in
          match f (VObj merged) (world s) with
          | (Ret _, w1) => (Ret true, {| mgr := stored; world := w1; trace := called |})
          | (Throw e, w1) => (Throw e, {| mgr := stored; world := w1; trace := called |})
          end
      | None => (Ret true, {| mgr := stored; world := world s; trace := trace s |})
      end
    else (Ret true, {| mgr := stored; world := world s; trace := trace s |}).
Proof.
  intros Hp. unfold updatePluginConfig. unfold bind at 1. unfold gets. cbn [mgr].
  rewrite (js_lookup_Some _ _ _ Hp).
  destruct (active p); [destruct (updateConfig (instance p)) as [f|]|];
    cbv [bind set_mgr modify ret call emit]; cbn [mgr world trace]; try reflexivity.
  by destruct (f (VObj (partial ∪ config p)) (world s)) as [[v|e] w1].
Qed.

(** C9: [updatePluginConfig] stores the shallow merge of the partial config
    over the stored one: every key of the partial config takes its new value
    whole, every other key keeps the stored value. When the plugin is active
    and has an [updateConfig] callback, that callback is called, once, with
    the merged config. *)
Theorem updatePluginConfig_merges pluginName partial p s :
  plugins (mgr s) !! pluginName = Some p ->
  let merged := partial ∪ config p in
  let s' := (updatePluginConfig pluginName partial s).2 in
  plugins (mgr s') !! pluginName = Some (set_config merged p)
  /\ (forall k, merged !! k = match partial !! k with
                             | Some v => Some v
                             | None => config p !! k
                             end)
  /\ (forall f,
        active p = true ->
        updateConfig (instance p) = Some f ->
        trace s' = trace s ++ [ECall (CUpdateConfig pluginName) (VObj merged)]
        /\ world s' = (f (VObj merged) (world s)).2
        /\ (updatePluginConfig pluginName partial s).1
             = match (f (VObj merged) (world s)).1 with
               | Ret _ => Ret true
               | Throw e => Throw e
               end)
  /\ (active p = false \/ updateConfig (instance p) = None ->
        (updatePluginConfig pluginName partial s).1 = Ret true
        /\ trace s' = trace s /\ world s' = world s).
Proof.
  intros Hp merged s'. subst s'.
  rewrite (updatePluginConfig_own _ _ _ _ Hp). cbv zeta. fold merged.
  split; [|split; [|split]].
  - destruct (active p); [destruct (updateConfig (instance p)) as [f|]|];
      try destruct (f (VObj merged) (world s)) as [[v|e] w1];
      cbn [snd mgr plugins set_plugins]; by rewrite lookup_insert_eq.
  - intros k. subst merged. destruct (partial !! k) as [v|] eqn:Hk.
    + by apply lookup_union_Some_l.
    + by apply lookup_union_r.
  - intros f Hactive Hupdate. rewrite Hactive, Hupdate.
    by destruct (f (VObj merged) (world s)) as [[v|e] w1].
  - intros [Hinactive|Hnone].
    + by rewrite Hinactive.
    + rewrite Hnone. by destruct (active p).
Qed.




(** After an [activate] that returned [true], where the plugin's entry and
    the call stand. *)
Lemma after_activate pluginName p s :
  plugins (mgr s) !! pluginName = Some p ->
  (activate pluginName s).1 = Ret true ->
  activate pluginName s = (Ret true, (activate pluginName s).2)
  /\ plugins (mgr (activate pluginName s).2) !! pluginName = Some (set_active true p).
Proof.
  intros Hp Hret. apply returned in Hret. split; [exact Hret|].
  apply activate_returns in Hret. rewrite Hp in Hret.
  destruct Hret as (_ & -> & _). apply lookup_insert_eq.
Qed.

End Lifecycle.

Lemma deactivate_unsubscribes_witness :
  let s1 := Examples.after (PluginManager.activate "whatsapp") Examples.office in
  let s2 := (PluginManager.deactivate "whatsapp" s1).2 in
  (forall h subs hook,
     PluginManager.hooks (PluginManager.mgr s2) !! h = Some subs ->
     hook ∈ subs -> PluginManager.name hook ≠ "whatsapp")
  /\ (forall s3 h data results s4,
        PluginManager.mgr s3 = PluginManager.mgr s2 ->
        PluginManager.trigger h data s3 = (Ret results, s4) ->
        forall e, e ∈ results -> PluginManager.entry_plugin e ≠ "whatsapp").
Proof.
  intros s1.
  apply (deactivate_unsubscribes "whatsapp" Examples.office s1 s1).
  - apply (returned (PluginManager.activate "whatsapp" Examples.office) true).
    by_computation.
  - reflexivity.
Defined.


(** C6 (as stated): [cleanup] is not guarded. Deactivating an active plugin
    whose [cleanup] throws ends with that exception. *)
Lemma deactivate_propagates_cleanup_failure :
  (PluginManager.deactivate "leaky"
     (Examples.after (PluginManager.activate "leaky") Examples.office)).1
    = Throw (mkError "cleanup failed").
Proof. by_computation. Qed.

Lemma lifecycle_callbacks_unguarded_witness :
  (exists s',
     PluginManager.activate "fragile" Examples.office = (Throw (mkError "init failed"), s')
     /\ PluginManager.mgr s' = PluginManager.mgr Examples.office)
  /\ (let s1 := Examples.after (PluginManager.activate "leaky") Examples.office in
      exists s',
        PluginManager.deactivate "leaky" s1 = (Throw (mkError "cleanup failed"), s')
        /\ PluginManager.hooks (PluginManager.mgr s')
             = (filter (fun hook => PluginManager.name hook ≠ "leaky")
                  <$> PluginManager.hooks (PluginManager.mgr s1))
        /\ PluginManager.plugins (PluginManager.mgr s')
             = PluginManager.plugins (PluginManager.mgr s1)
        /\ PluginManager.activePlugins (PluginManager.mgr s') = ["leaky"]).
Proof.
  split.
  - destruct (lifecycle_callbacks_unguarded "fragile"
                (Examples.registered Examples.fragile) Examples.office eq_refl)
      as [Hinit _].
    apply (Hinit (Examples.throws (mkError "init failed")) (mkError "init failed") 1).
    + reflexivity.
    + by_computation.
  - intros s1.
    destruct (after_activate "leaky" (Examples.registered Examples.leaky) Examples.office)
      as [_ Hentry]; [reflexivity|by_computation|].
    destruct (lifecycle_callbacks_unguarded "leaky"
                (PluginManager.set_active true (Examples.registered Examples.leaky))
                s1 Hentry)
      as [_ Hcleanup].
    destruct (Hcleanup (Examples.throws (mkError "cleanup failed"))
                (mkError "cleanup failed") 1)
      as (s' & Hrun & Hhooks & Hplugins & Hactive).
    + reflexivity.
    + reflexivity.
    + by_computation.
    + exists s'. split; [exact Hrun|]. split; [exact Hhooks|]. split; [exact Hplugins|].
      rewrite Hactive. by_computation.
Defined.

Lemma updatePluginConfig_merges_witness :
  let s1 := Examples.after (PluginManager.activate "uchat") Examples.office in
  let s2 := (PluginManager.updatePluginConfig "uchat" {[ "apiKey" := VStr "x" ]} s1).2 in
  PluginManager.config <$> PluginManager.plugins (PluginManager.mgr s2) !! "uchat"
    = Some {[ "apiKey" := VStr "x"; "flowId" := VStr "z" ]}
  /\ PluginManager.trace s2
     = PluginManager.trace s1 ++
         [ECall (CUpdateConfig "uchat")
            (VObj {[ "apiKey" := VStr "x"; "flowId" := VStr "z" ]})].
Proof.
  intros s1 s2.
  destruct (after_activate "uchat"
              {| PluginManager.instance := Examples.whatsapp;
                 PluginManager.config := Examples.uchat_config;
                 PluginManager.active := false |} Examples.office)
    as [_ Hentry]; [reflexivity|by_computation|].
  destruct (updatePluginConfig_merges "uchat" {[ "apiKey" := VStr "x" ]}
              {| PluginManager.instance := Examples.whatsapp;
                 PluginManager.config := Examples.uchat_config;
                 PluginManager.active := true |}
              s1 Hentry) as (Hstored & _ & Hcalled & _).
  split.
  - subst s2. rewrite Hstored. reflexivity.
  - destruct (Hcalled (Examples.returns VUndefined) eq_refl eq_refl) as [Htrace _].
    exact Htrace.
Defined.


(** ** Properties of the entry points *)

Section TraceLemmas.
Context {World : Type}.
Import PluginManager.
Implicit Types (s : St World) (P : Event -> Prop).

Lemma emits_ret {A} P (a : A) : emits (World := World) P (ret a).
Proof. intros s. exists []. by rewrite app_nil_r. Qed.

Lemma emits_throw {A} P e : emits (World := World) (A := A) P (throw e).
Proof. intros s. exists []. by rewrite app_nil_r. Qed.

Lemma emits_gets {A} P (f : St World -> A) : emits P (gets f).
Proof. intros s. exists []. by rewrite app_nil_r. Qed.

Lemma emits_lift_res {A} P (r : Res A) : emits (World := World) P (lift_res r).
Proof. intros s. exists []. by rewrite app_nil_r. Qed.

Lemma emits_emit P e : P e -> emits (World := World) P (emit e).
Proof. intros He s. exists [e]. split; [reflexivity|]. by constructor. Qed.

Lemma emits_console P level text args :
  P (EConsole level text args) -> emits (World := World) P (console level text args).
Proof. apply emits_emit. Qed.

Lemma emits_set_mgr P f : emits (World := World) P (set_mgr f).
Proof. intros s. exists []. by rewrite app_nil_r. Qed.

Lemma emits_on_world P f : emits (World := World) P (on_world f).
Proof. intros s. exists []. by rewrite app_nil_r. Qed.

Lemma emits_ask_world {A} P (f : World -> A) : emits P (ask_world f).
Proof. intros s. exists []. by rewrite app_nil_r. Qed.

Lemma emits_run_world {A} P (f : World -> A * World) : emits P (run_world f).
Proof.
  intros s. exists []. unfold run_world. destruct (f (world s)). by rewrite app_nil_r.
Qed.

Lemma emits_bind {A B} P (c : M (St World) A) (k : A -> M (St World) B) :
  emits P c -> (forall a, emits P (k a)) -> emits P (a <- c ;; k a).
Proof.
  intros Hc Hk s. unfold bind. destruct (Hc s) as (new1 & Ht1 & HP1).
  destruct (c s) as [[a|e] s1]; cbn [snd] in *.
  - destruct (Hk a s1) as (new2 & Ht2 & HP2).
    exists (new1 ++ new2). rewrite Ht2, Ht1, app_assoc. split; [done|].
    by apply Forall_app.
  - by exists new1.
Qed.

Lemma emits_try_catch {A} P (body : M (St World) A) handler :
  emits P body -> (forall e, emits P (handler e)) -> emits P (try_catch body handler).
Proof.
  intros Hb Hh s. unfold try_catch. destruct (Hb s) as (new1 & Ht1 & HP1).
  destruct (body s) as [[a|e] s1]; cbn [snd] in *.
  - by exists new1.
  - destruct (Hh e s1) as (new2 & Ht2 & HP2).
    exists (new1 ++ new2). rewrite Ht2, Ht1, app_assoc. split; [done|].
    by apply Forall_app.
Qed.

Lemma emits_call P callee (f : Callback World) arg :
  P (ECall callee arg) -> emits P (call callee f arg).
Proof.
  intros He. unfold call. apply emits_bind; [by apply emits_emit|].
  intros _ s. exists []. destruct (f arg (world s)). by rewrite app_nil_r.
Qed.

Lemma emits_dispatch P hookName data (hook : Subscription World) :
  (forall callee arg, P (ECall callee arg)) ->
  (forall level text args, P (EConsole level text args)) ->
  emits P (dispatch hookName data hook).
Proof.
  intros Hcall Hconsole. unfold dispatch.
  apply emits_try_catch.
  - apply emits_bind; [by apply emits_call|]. intros. apply emits_ret.
  - intros e. apply emits_bind; [by apply emits_console|]. intros _.
    apply emits_bind; [apply emits_lift_res|]. intros. apply emits_ret.
Qed.

Lemma emits_dispatch_all P hookName data (subs : list (Subscription World)) : forall acc,
  (forall callee arg, P (ECall callee arg)) ->
  (forall level text args, P (EConsole level text args)) ->
  emits P (dispatch_all hookName data subs acc).
Proof.
  induction subs as [|hook rest IH]; intros acc Hcall Hconsole; [apply emits_ret|].
  cbn [dispatch_all]. apply emits_bind; [by apply emits_dispatch|].
  intros e. by apply IH.
Qed.

(** After the [ETrigger] mark, [trigger] only calls handlers and prints. *)
Lemma trigger_begins hookName data s :
  exists body : M (St World) (list Entry),
    trigger hookName data s =
      body {| mgr := mgr s; world := world s;
              trace := trace s ++ [ETrigger hookName (payload data)] |}
    /\ forall P,
         (forall callee arg, P (ECall callee arg)) ->
         (forall level text args, P (EConsole level text args)) ->
         emits P body.
Proof.
  eexists. split.
  - unfold trigger. unfold bind at 1. unfold emit, modify. reflexivity.
  - intros P Hcall Hconsole. apply emits_bind; [apply emits_gets|].
    intros hs. destruct (js_lookup hs hookName).
    + by apply emits_dispatch_all.
    + apply emits_throw.
    + apply emits_bind; [by apply emits_console|]. intros. apply emits_ret.
Qed.

Lemma emits_trigger P hookName data :
  (forall h d, P (ETrigger h d)) ->
  (forall callee arg, P (ECall callee arg)) ->
  (forall level text args, P (EConsole level text args)) ->
  emits (World := World) P (trigger hookName data).
Proof.
  intros Htrig Hcall Hconsole s.
  destruct (trigger_begins hookName data s) as (body & -> & Hbody).
  destruct (Hbody P Hcall Hconsole
              {| mgr := mgr s; world := world s;
                 trace := trace s ++ [ETrigger hookName (payload data)] |})
    as (new & Ht & HP).
  exists (ETrigger hookName (payload data) :: new).
  rewrite Ht. cbn [trace]. rewrite <- app_assoc. split; [done|].
  constructor; [apply Htrig|done].
Qed.

Lemma emits_check_required P payload fields :
  (forall level text args, P (EConsole level text args)) ->
  emits (World := World) P (check_required payload fields).
Proof.
  intros Hconsole. induction fields as [|field rest IH]; [apply emits_ret|].
  cbn [check_required]. apply emits_bind; [apply emits_lift_res|].
  intros v. destruct (truthy v); [exact IH|].
  apply emits_bind; [by apply emits_console|]. intros. apply emits_ret.
Qed.

Lemma emits_weaken {A} (P Q : Event -> Prop) (c : M (St World) A) :
  (forall e, P e -> Q e) -> emits P c -> emits Q c.
Proof.
  intros HPQ Hc s. destruct (Hc s) as (new & Ht & HP).
  exists new. split; [done|]. eapply Forall_impl; eauto.
Qed.

Lemma try_catch_returns {A} (body : M (St World) A) handler :
  (forall e, returns_always (handler e)) -> returns_always (try_catch body handler).
Proof.
  intros Hh s. unfold try_catch. destruct (body s) as [[a|e] s1]; [by exists a|].
  apply Hh.
Qed.

(** The shape both [triggerIntegrations] have: everything sits in one
    [try]/[catch] that only logs, and the first thing done is the [trigger]. *)
Lemma integrations_shape hookName d (rest : list Entry -> M (St World) unit) text s :
  (forall results, emits call_or_console (rest results)) ->
  exists s' new,
    try_catch (pluginResults <- trigger hookName d ;; rest pluginResults)
              (fun error => console LError text [error]) s = (Ret tt, s')
    /\ trace s' = trace s ++ ETrigger hookName (payload d) :: new
    /\ Forall call_or_console new.
Proof.
  intros Hrest.
  destruct (trigger_begins hookName d s) as (body & Heq & Hbody).
  set (s0 := {| mgr := mgr s; world := world s;
                trace := trace s ++ [ETrigger hookName (payload d)] |}) in *.
  set (c := try_catch (pluginResults <- body ;; rest pluginResults)
                      (fun error => console LError text [error])).
  assert (Hc : try_catch (pluginResults <- trigger hookName d ;; rest pluginResults)
                 (fun error => console LError text [error]) s = c s0).
  { unfold c, try_catch, bind. by rewrite Heq. }
  rewrite Hc.
  assert (Hemits : emits call_or_console c).
  { apply emits_try_catch.
    - apply emits_bind; [by apply Hbody|]. exact Hrest.
    - intros e. by apply emits_console. }
  assert (Hret : returns_always c).
  { apply try_catch_returns. intros e s1. by exists tt. }
  destruct (Hemits s0) as (new & Ht & HP). destruct (Hret s0) as ([] & Hr).
  exists (c s0).2, new. split; [|split; [|done]].
  - destruct (c s0) as [r s1]. cbn in Hr. by subst r.
  - rewrite Ht. cbn [trace s0]. by rewrite <- app_assoc.
Qed.

(** What follows the preparation of the record in [processLead] and in
    [processBooking]: the insert, the check of its reply, and the hooks.
    The request fails when the insert fails, when the reply carries an error
    and when the reply has no rows to read; otherwise the hook is triggered
    next, on the row that came back. *)
Lemma persist_then_notify table record text message key hookName
    `{!Runtime World} (integrate : JsValue -> M (St World) unit) s :
  (forall saved s1, exists s2 new,
     integrate saved s1 = (Ret tt, s2)
     /\ trace s2 = trace s1 ++ ETrigger hookName (payload saved) :: new
     /\ Forall call_or_console new) ->
  let outcome := (supabase_insert table record (world s)).1 in
  exists r s' rest,
    (reply <- insert_select table record ;;
     if truthy (error reply) then
       console LError text [error reply] ;;
       throw (mkError message)
     else
       saved <- lift_res (get_first (data reply)) ;;
       integrate saved ;;
       ret (VObj {[ "success" := VBool true; key := saved ]})) s = (r, s')
    /\ trace s' = trace s ++ EInsert table record outcome :: rest
    /\ match outcome with
       | Throw e => r = Throw e /\ rest = []
       | Ret reply =>
           if truthy (error reply) then
             r = Throw (mkError message) /\ rest = [EConsole LError text [error reply]]
           else
             match get_first (data reply) with
             | Throw e => r = Throw e /\ rest = []
             | Ret saved =>
                 r = Ret (VObj {[ "success" := VBool true; key := saved ]})
                 /\ exists new,
                      rest = ETrigger hookName (payload saved) :: new
                      /\ Forall call_or_console new
             end
       end.
Proof.
  intros Hint outcome. subst outcome. rewrite bind_run. unfold insert_select.
  destruct (supabase_insert table record (world s)) as [[reply|e] w1]; cbn [fst].
  - destruct (truthy (error reply)) eqn:Herr.
    + eexists _, _, _. split; [reflexivity|].
      cbn [trace]. split; [by rewrite <- app_assoc|]. done.
    + rewrite bind_lift_res.
      destruct (get_first (data reply)) as [saved|e] eqn:Hfirst.
      * rewrite bind_run.
        set (s1 := {| mgr := mgr s; world := w1; trace := _ |}).
        destruct (Hint saved s1) as (s2 & new & Hrun & Ht & HP). rewrite Hrun.
        eexists _, _, _. split; [reflexivity|].
        rewrite Ht. cbn [trace s1]. split; [by rewrite <- app_assoc|].
        split; [done|]. by exists new.
      * eexists _, _, _. split; [reflexivity|]. cbn [trace]. done.
  - eexists _, _, _. split; [reflexivity|]. cbn [trace]. done.
Qed.

End TraceLemmas.

Section EntryPointFacts.
Context {World : Type} `{!Runtime World}.
Import PluginManager.
Implicit Types (s : St World).

Lemma console_only_call_or_console e : console_only e -> call_or_console e.
Proof. by destruct e. Qed.

Lemma console_only_not_hook_activity e : console_only e -> not_hook_activity e.
Proof. by destruct e. Qed.

Lemma console_only_no_trigger new hookName d :
  Forall console_only new -> ETrigger hookName d ∉ new.
Proof. intros Hall Hin. by apply (proj1 (Forall_forall _ _) Hall) in Hin. Qed.

Lemma call_or_console_no_trigger new hookName d :
  Forall call_or_console new -> ETrigger hookName d ∉ new.
Proof. intros Hall Hin. by apply (proj1 (Forall_forall _ _) Hall) in Hin. Qed.

Lemma console_only_no_insert new table record outcome :
  Forall console_only new -> EInsert table record outcome ∉ new.
Proof. intros Hall Hin. by apply (proj1 (Forall_forall _ _) Hall) in Hin. Qed.

Lemma call_or_console_no_insert new table record outcome :
  Forall call_or_console new -> EInsert table record outcome ∉ new.
Proof. intros Hall Hin. by apply (proj1 (Forall_forall _ _) Hall) in Hin. Qed.

Lemma in_split_trigger (before after new : list Event) hookName d :
  new = before ++ ETrigger hookName d :: after -> ETrigger hookName d ∈ new.
Proof. intros ->. apply elem_of_app. right. apply elem_of_cons. by left. Qed.

(** Each shape keeps the hooks behind a successful insert, and pairs a
    failed insert with status 500 and silence on the hooks. *)
Lemma request_shape_sound hookName resp new :
  request_shape hookName resp new ->
  persisted_before_hooks new
  /\ (forall table record outcome,
        EInsert table record outcome ∈ new ->
        insert_failed outcome ->
        status resp = 500%Z /\ Forall not_hook_activity new).
Proof.
  intros [[_ Hconsole] | [(t & r & o & rest & -> & Hrest & Hstatus)
                        | (t & r & reply & saved & rest & -> & Herr & Hfirst & Hrest & _)]].
  - split.
    + intros before h d after Hsplit. apply in_split_trigger in Hsplit.
      by apply console_only_no_trigger in Hsplit.
    + intros t r o Hin. by apply console_only_no_insert in Hin.
  - split.
    + intros before h d after Hsplit. apply in_split_trigger in Hsplit.
      apply elem_of_cons in Hsplit as [?|Hin]; [discriminate|].
      by apply console_only_no_trigger in Hin.
    + intros _ _ _ _ _. split; [done|]. constructor; [done|].
      eapply Forall_impl; [exact Hrest|]. apply console_only_not_hook_activity.
  - split.
    + intros before h d after Hsplit.
      destruct before as [|b0 before]; [discriminate|].
      cbn in Hsplit. inversion Hsplit as [[Hb0 Htail]]. subst b0.
      destruct before as [|b1 before].
      * cbn in Htail. inversion Htail; subst.
        exists t, r, reply, saved. repeat split; try done. apply elem_of_cons. by left.
      * exfalso. cbn in Htail. inversion Htail as [[Hb1 Hrest']].
        apply (call_or_console_no_trigger rest h d Hrest).
        rewrite Hrest'. apply elem_of_app. right. apply elem_of_cons. by left.
    + intros t' r' o Hin Hfailed. exfalso.
      apply elem_of_cons in Hin as [Heq|Hin].
      * inversion Heq; subst. cbn in Hfailed. congruence.
      * apply elem_of_cons in Hin as [?|Hin]; [discriminate|].
        by apply call_or_console_no_insert in Hin.
Qed.

Lemma truthy_field_object v key :
  truthy (field_of v key) = true -> exists fields, v = VObj fields.
Proof. destruct v; cbn; try discriminate. eauto. Qed.

(** The three ways the validation loop can end. *)
Lemma check_required_cases payload fields s :
  (exists e, check_required payload fields s = (Throw e, s) /\ nullish payload = true)
  \/ (check_required payload fields s = (Ret true, s)
      /\ forall f, f ∈ fields -> truthy (field_of payload f) = true)
  \/ (exists f,
        f ∈ fields /\ truthy (field_of payload f) = false /\ nullish payload = false
        /\ check_required payload fields s =
             (Ret false,
              {| mgr := mgr s; world := world s;
                 trace := trace s ++ [EConsole LError ("Missing required field: " +:+ f) []] |})).
Proof.
  induction fields as [|field rest IH].
  - right. left. split; [reflexivity|]. intros f Hf. by apply elem_of_nil in Hf.
  - cbn [check_required]. rewrite bind_lift_res.
    destruct (get_member payload field) as [v|e] eqn:Hget.
    + assert (Hv : field_of payload field = v) by (unfold field_of; by rewrite Hget).
      destruct (truthy v) eqn:Htruthy.
      * destruct IH as [(e & He & Hn) | [[Hok Hall] | (f & Hf & Hfalsy & Hn & Hrun)]].
        -- left. eauto.
        -- right. left. split; [done|]. intros f Hf.
           apply elem_of_cons in Hf as [->|Hf]; [congruence|by apply Hall].
        -- right. right. exists f. repeat split; try done. apply elem_of_cons. by right.
      * right. right. exists field. split; [apply elem_of_cons; by left|].
        split; [congruence|]. split; [by destruct payload|reflexivity].
    + left. exists e. split; [reflexivity|]. by destruct payload.
Qed.

End EntryPointFacts.

Section LeadFacts.
Context {World : Type} `{!Runtime World} `{!LeadApi.Vendors World}.
Import PluginManager.
Implicit Types (s : St World).

Lemma lead_integrations saved s :
  exists s' new,
    LeadApi.triggerIntegrations saved s = (Ret tt, s')
    /\ trace s' = trace s ++ ETrigger "onLead" (payload saved) :: new
    /\ Forall call_or_console new.
Proof.
  unfold LeadApi.triggerIntegrations. apply integrations_shape. intros results.
  apply emits_bind; [by apply emits_console|]. intros _.
  apply emits_bind; [apply emits_on_world|]. intros _.
  apply emits_bind; [apply emits_on_world|]. intros _.
  apply emits_bind; [apply emits_lift_res|]. intros phone.
  apply emits_bind; [destruct (truthy phone); [apply emits_on_world|apply emits_ret]|].
  intros _.
  apply emits_bind; [apply emits_lift_res|]. intros utm_source.
  apply emits_bind; [apply emits_lift_res|]. intros utm_medium.
  apply emits_bind; [apply emits_lift_res|]. intros utm_campaign.
  destruct (_ || _); [apply emits_on_world|apply emits_ret].
Qed.

(** [processLead] on an object: the record it inserts, and how it ends. *)
Lemma processLead_object fields s :
  let record := VObj (lead_record fields (Date_now (world s))) in
  let outcome := (supabase_insert "leads" record (world s)).1 in
  exists r s' rest,
    LeadApi.processLead (VObj fields) s = (r, s')
    /\ trace s' = trace s ++ EInsert "leads" record outcome :: rest
    /\ match outcome with
       | Throw e => r = Throw e /\ rest = []
       | Ret reply =>
           if truthy (error reply) then
             r = Throw (mkError "Failed to save lead")
             /\ rest = [EConsole LError "Error saving lead to database:" [error reply]]
           else
             match get_first (data reply) with
             | Throw e => r = Throw e /\ rest = []
             | Ret saved =>
                 r = Ret (VObj {[ "success" := VBool true; "lead" := saved ]})
                 /\ exists new,
                      rest = ETrigger "onLead" (payload saved) :: new
                      /\ Forall call_or_console new
             end
       end.
Proof.
  cbv zeta. unfold LeadApi.processLead, lead_record.
  rewrite bind_run. unfold ask_world at 1, gets at 1. cbv beta iota zeta.
  rewrite bind_lift_res. cbn [set_member].
  rewrite bind_lift_res. cbn [get_member].
  rewrite bind_run.
  destruct (truthy (default VUndefined _)); cbv [ret lift_res]; cbv beta iota;
    apply (persist_then_notify "leads" _ _ _ "lead" "onLead");
    apply lead_integrations.
Qed.

(** Every request to the lead handler is answered, and its events have one
    of the three shapes. *)
Lemma lead_handler_shape req s :
  exists resp s' new,
    LeadApi.handler req s = (Ret resp, s')
    /\ trace s' = trace s ++ new
    /\ request_shape "onLead" resp new.
Proof.
  unfold LeadApi.handler. destruct (String.eqb (method req) "POST"); cbn [negb].
  - rewrite try_catch_run, bind_run. unfold LeadApi.validateLeadData.
    destruct (check_required_cases (body req) ["name"; "email"] s)
      as [(e & -> & _) | [[-> Hall] | (f & _ & _ & _ & ->)]].
    + eexists _, _, [_]. split; [reflexivity|]. split; [reflexivity|].
      left. split; [done|]. by repeat constructor.
    + cbn [negb].
      destruct (truthy_field_object (body req) "name") as [fields Hbody].
      { apply Hall. apply elem_of_cons. by left. }
      rewrite Hbody, bind_run.
      destruct (processLead_object fields s) as (r & s' & rest & -> & Ht & Hcase).
      destruct ((supabase_insert "leads"
                   (VObj (lead_record fields (Date_now (world s)))) (world s)).1)
        as [reply|e].
      * destruct (truthy (error reply)) eqn:Herr.
        -- destruct Hcase as [-> ->].
           eexists _, _, _. split; [reflexivity|]. cbn [trace].
           rewrite Ht, <- app_assoc. split; [reflexivity|].
           right. left. eexists _, _, _, _. split; [reflexivity|].
           split; [|done]. by repeat constructor.
        -- destruct (get_first (data reply)) as [saved|e] eqn:Hfirst.
           ++ destruct Hcase as [-> (new & -> & Hnew)].
              eexists _, _, _. split; [reflexivity|]. split; [exact Ht|].
              right. right. eexists "leads", _, reply, saved, new. by repeat split.
           ++ destruct Hcase as [-> ->].
              eexists _, _, _. split; [reflexivity|]. cbn [trace].
              rewrite Ht, <- app_assoc. split; [reflexivity|].
              right. left. eexists _, _, _, _. split; [reflexivity|].
              split; [|done]. by repeat constructor.
      * destruct Hcase as [-> ->].
        eexists _, _, _. split; [reflexivity|]. cbn [trace].
        rewrite Ht, <- app_assoc. split; [reflexivity|].
        right. left. eexists _, _, _, _. split; [reflexivity|].
        split; [|done]. by repeat constructor.
    + cbn [negb]. eexists _, _, [_]. split; [reflexivity|]. split; [reflexivity|].
      left. split; [done|]. by repeat constructor.
  - eexists _, _, []. split; [reflexivity|]. split; [by rewrite app_nil_r|].
    left. split; [done|]. constructor.
Qed.

End LeadFacts.

Section BookingFacts.
Context {World : Type} `{!Runtime World} `{!BookingApi.Vendors World}.
Import PluginManager.
Implicit Types (s : St World).

Lemma booking_integrations saved s :
  exists s' new,
    BookingApi.triggerIntegrations saved s = (Ret tt, s')
    /\ trace s' = trace s ++ ETrigger "onBooking" (payload saved) :: new
    /\ Forall call_or_console new.
Proof.
  unfold BookingApi.triggerIntegrations. apply integrations_shape. intros results.
  apply emits_bind; [by apply emits_console|]. intros _.
  apply emits_bind; [apply emits_on_world|]. intros _.
  apply emits_bind; [apply emits_on_world|]. intros _.
  apply emits_bind; [apply emits_on_world|]. intros _.
  apply emits_on_world.
Qed.

(** The reference is generated without a trace and without touching the
    manager; it may draw from the world's randomness. *)
Lemma generateBookingReference_run s :
  exists reference w,
    BookingApi.generateBookingReference s =
      (Ret reference, {| mgr := mgr s; world := w; trace := trace s |}).
Proof.
  unfold BookingApi.generateBookingReference.
  rewrite bind_run. unfold ask_world at 1, gets at 1. cbv beta iota zeta.
  rewrite bind_run. unfold run_world at 1.
  destruct (random_below 10000 (world s)) as [draw w]. by eexists _, _.
Qed.

(** [processBooking] on an object: it inserts one record, and ends as
    [processLead] does. *)
Lemma processBooking_object fields s :
  exists record w r s' rest,
    let outcome := (supabase_insert "bookings" record w).1 in
    BookingApi.processBooking (VObj fields) s = (r, s')
    /\ trace s' = trace s ++ EInsert "bookings" record outcome :: rest
    /\ match outcome with
       | Throw e => r = Throw e /\ rest = []
       | Ret reply =>
           if truthy (error reply) then
             r = Throw (mkError "Failed to save booking")
             /\ rest = [EConsole LError "Error saving booking to database:" [error reply]]
           else
             match get_first (data reply) with
             | Throw e => r = Throw e /\ rest = []
             | Ret saved =>
                 r = Ret (VObj {[ "success" := VBool true; "booking" := saved ]})
                 /\ exists new,
                      rest = ETrigger "onBooking" (payload saved) :: new
                      /\ Forall call_or_console new
             end
       end.
Proof.
  unfold BookingApi.processBooking.
  rewrite bind_lift_res. cbn [get_member].
  rewrite bind_run.
  destruct (truthy (default VUndefined (fields !! "reference"))).
  - cbv [ret]. cbv beta iota.
    rewrite bind_run. unfold ask_world at 1, gets at 1. cbv beta iota zeta.
    rewrite bind_lift_res. cbn [set_member].
    eexists _, (world s).
    apply (persist_then_notify "bookings" _ _ _ "booking" "onBooking").
    apply booking_integrations.
  - rewrite bind_run.
    destruct (generateBookingReference_run s) as (reference & w & ->).
    cbv beta iota. unfold lift_res at 1. cbn [set_member]. cbv beta iota.
    rewrite bind_run. unfold ask_world at 1, gets at 1. cbv beta iota zeta.
    rewrite bind_lift_res. cbn [set_member world].
    eexists _, w.
    apply (persist_then_notify "bookings" _ _ _ "booking" "onBooking"
             BookingApi.triggerIntegrations
             {| mgr := mgr s; world := w; trace := trace s |}).
    apply booking_integrations.
Qed.

(** Every request to the booking handler is answered, and its events have
    one of the three shapes. *)
Lemma booking_handler_shape req s :
  exists resp s' new,
    BookingApi.handler req s = (Ret resp, s')
    /\ trace s' = trace s ++ new
    /\ request_shape "onBooking" resp new.
Proof.
  unfold BookingApi.handler. destruct (String.eqb (method req) "POST"); cbn [negb].
  - rewrite try_catch_run, bind_run. unfold BookingApi.validateBookingData.
    destruct (check_required_cases (body req)
                ["vehicleId"; "pickupDate"; "returnDate"; "pickupLocation";
                 "returnLocation"; "first-name"; "last-name"; "email"; "phone"] s)
      as [(e & -> & _) | [[-> Hall] | (f & _ & _ & _ & ->)]].
    + eexists _, _, [_]. split; [reflexivity|]. split; [reflexivity|].
      left. split; [done|]. by repeat constructor.
    + cbn [negb].
      destruct (truthy_field_object (body req) "vehicleId") as [fields Hbody].
      { apply Hall. apply elem_of_cons. by left. }
      rewrite Hbody, bind_run.
      destruct (processBooking_object fields s)
        as (record & w & r & s' & rest & -> & Ht & Hcase).
      destruct ((supabase_insert "bookings" record w).1) as [reply|e].
      * destruct (truthy (error reply)) eqn:Herr.
        -- destruct Hcase as [-> ->].
           eexists _, _, _. split; [reflexivity|]. cbn [trace].
           rewrite Ht, <- app_assoc. split; [reflexivity|].
           right. left. eexists _, _, _, _. split; [reflexivity|].
           split; [|done]. by repeat constructor.
        -- destruct (get_first (data reply)) as [saved|e] eqn:Hfirst.
           ++ destruct Hcase as [-> (new & -> & Hnew)].
              eexists _, _, _. split; [reflexivity|]. split; [exact Ht|].
              right. right. eexists "bookings", _, reply, saved, new. by repeat split.
           ++ destruct Hcase as [-> ->].
              eexists _, _, _. split; [reflexivity|]. cbn [trace].
              rewrite Ht, <- app_assoc. split; [reflexivity|].
              right. left. eexists _, _, _, _. split; [reflexivity|].
              split; [|done]. by repeat constructor.
      * destruct Hcase as [-> ->].
        eexists _, _, _. split; [reflexivity|]. cbn [trace].
        rewrite Ht, <- app_assoc. split; [reflexivity|].
        right. left. eexists _, _, _, _. split; [reflexivity|].
        split; [|done]. by repeat constructor.
    + cbn [negb]. eexists _, _, [_]. split; [reflexivity|]. split; [reflexivity|].
      left. split; [done|]. by repeat constructor.
  - eexists _, _, []. split; [reflexivity|]. split; [by rewrite app_nil_r|].
    left. split; [done|]. constructor.
Qed.

End BookingFacts.

(** ** Further properties of the plugin manager *)

Section ManagerMore.
Context {World : Type}.
Import PluginManager PluginRegistry.
Implicit Types (s : St World) (p : PluginEntry World) (subs : list (Subscription World)).

Lemma filter_keeps_all {A} (P : A -> Prop) `{!forall x, Decision (P x)} (l : list A) :
  Forall P l -> filter P l = l.
Proof.
  induction 1 as [|x rest Hx _ IH]; [done|]. by rewrite filter_cons_True, IH.
Qed.

Lemma filter_drops_all {A} (P : A -> Prop) `{!forall x, Decision (P x)} (l : list A) :
  Forall (fun x => ~ P x) l -> filter P l = [].
Proof.
  induction 1 as [|x rest Hx _ IH]; [done|]. by rewrite filter_cons_False, IH.
Qed.

Lemma declared_for_named hookName pluginName (impl : PluginImpl World) :
  Forall (fun hook => name hook = pluginName) (declared_for hookName pluginName impl).
Proof.
  unfold declared_for. destruct (plugin_hooks impl) as [declared|]; [|constructor].
  apply Forall_fmap, Forall_forall. by intros.
Qed.

(** [register] writes the entry and nothing else of the manager. *)
Lemma register_run pluginName impl cfg s :
  pluginName ≠ "__proto__" ->
  exists new,
    register pluginName impl cfg s =
      (Ret tt,
       {| mgr := set_plugins
                   (<[pluginName := {| instance := impl; config := default ∅ cfg;
                                       active := false |}]> (plugins (mgr s))) (mgr s);
          world := world s;
          trace := trace s ++ new |})
    /\ Forall console_only new.
Proof.
  intros Hname. unfold register. rewrite bind_run. unfold gets at 1. cbv beta iota.
  assert (Heqb : String.eqb pluginName "__proto__" = false)
    by (by apply String.eqb_neq).
  rewrite Heqb.
  destruct (js_lookup (plugins (mgr s)) pluginName);
    cbv [bind console emit modify set_mgr ret]; cbn [mgr world trace].
  - eexists [_; _]. split; [by rewrite <- app_assoc|]. by repeat constructor.
  - eexists [_; _]. split; [by rewrite <- app_assoc|]. by repeat constructor.
  - eexists [_]. split; [reflexivity|]. by repeat constructor.
Qed.

(** [activate] on a name without an entry of its own: refused with a
    console error, or, for a name the registry object inherits, a
    [TypeError]. *)
Lemma activate_no_entry pluginName s :
  plugins (mgr s) !! pluginName = None ->
  activate pluginName s =
    if bool_decide (pluginName ∈ object_prototype_keys) then
      (Throw (mkError "Cannot read properties of undefined (reading 'init')"), s)
    else
      (Ret false,
       {| mgr := mgr s; world := world s;
          trace := trace s ++
            [EConsole LError ("Plugin " +:+ pluginName +:+ " is not registered.") []] |}).
Proof.
  intros Hp. unfold activate. rewrite bind_run. unfold gets at 1. cbv beta iota.
  unfold js_lookup. rewrite Hp. by destruct (bool_decide _).
Qed.

(** The [forEach] of [activate] however it ends: lists only grow, by
    subscriptions under the plugin's name, and no key appears. *)
Lemma forEach_subscribe_any pluginName declared : forall s,
  let s' := (forEach (subscribe pluginName) declared s).2 in
  plugins (mgr s') = plugins (mgr s)
  /\ activePlugins (mgr s') = activePlugins (mgr s)
  /\ forall h,
       match hooks (mgr s) !! h with
       | Some subs =>
           exists added,
             hooks (mgr s') !! h = Some (subs ++ added)
             /\ Forall (fun hook => name hook = pluginName) added
       | None => hooks (mgr s') !! h = None
       end.
Proof.
  induction declared as [|[k cb] rest IH]; intros s; cbv zeta.
  - cbn. repeat split. intros h. destruct (hooks (mgr s) !! h); [|done].
    exists []. by rewrite app_nil_r.
  - cbn [forEach]. rewrite bind_run, subscribe_run. unfold js_lookup.
    destruct (hooks (mgr s) !! k) as [subs|] eqn:Hk.
    + match goal with |- context [forEach _ rest ?st] => set (s1 := st) end.
      destruct (IH s1) as (Hp & Ha & Hh). cbn [mgr s1 plugins activePlugins set_hooks] in Hp, Ha.
      destruct (forEach (subscribe pluginName) rest s1) as [[[]|e] s2] eqn:Hrun;
        cbn [snd] in *; (repeat split; [done|done|]);
        intros h; specialize (Hh h); cbn [mgr s1 hooks set_hooks] in Hh;
        (destruct (decide (k = h)) as [->|Hne];
          [rewrite lookup_insert_eq in Hh; rewrite Hk;
           destruct Hh as (added & -> & Hadded);
           exists ({| name := pluginName; callback := cb |} :: added);
           split; [by rewrite <- app_assoc|by constructor]
          |by rewrite lookup_insert_ne in Hh]).
    + destruct (bool_decide _).
      * cbn [snd]. repeat split. intros h. destruct (hooks (mgr s) !! h); [|done].
        exists []. by rewrite app_nil_r.
      * apply IH.
Qed.

(** [activate] on a registered name, step by step. *)
Lemma activate_own_run pluginName p s :
  plugins (mgr s) !! pluginName = Some p ->
  activate pluginName s =
    match init_step pluginName p s with
    | (Throw e, s1) => (Throw e, s1)
    | (Ret _, s1) =>
        match subscribe_step pluginName p s1 with
        | (Throw e, s2) => (Throw e, s2)
        | (Ret _, s2) =>
            (Ret true,
             {| mgr := set_activePlugins (activePlugins (mgr s2) ++ [pluginName])
                         (set_plugins (<[pluginName := set_active true p]> (plugins (mgr s)))
                            (mgr s2));
                world := world s2;
                trace := trace s2 ++
                  [EConsole LLog ("Plugin " +:+ pluginName +:+ " activated successfully.") []] |})
        end
    end.
Proof.
  intros Hp. unfold activate. rewrite bind_run. unfold gets at 1. cbv beta iota.
  rewrite (js_lookup_Some _ _ _ Hp). rewrite bind_run.
  change (match init (instance p) with
          | Some f => call (CInit pluginName) f (VObj (config p)) ;; ret tt
          | None => ret tt
          end) with (init_step pluginName p).
  destruct (init_step pluginName p s) as [[[]|e] s1]; [|reflexivity].
  rewrite bind_run.
  change (match plugin_hooks (instance p) with
          | Some declared => forEach (subscribe pluginName) declared
          | None => ret tt
          end) with (subscribe_step pluginName p).
  destruct (subscribe_step pluginName p s1) as [[[]|e] s2]; reflexivity.
Qed.

Lemma init_step_mgr pluginName p s : mgr (init_step pluginName p s).2 = mgr s.
Proof.
  unfold init_step. destruct (init (instance p)) as [f|]; [|done].
  cbv [bind call emit modify ret]. cbn [mgr world trace].
  by destruct (f (VObj (config p)) (world s)) as [[v|e] w1].
Qed.

Lemma subscribe_step_any pluginName p s :
  let s' := (subscribe_step pluginName p s).2 in
  plugins (mgr s') = plugins (mgr s)
  /\ activePlugins (mgr s') = activePlugins (mgr s)
  /\ forall h,
       match hooks (mgr s) !! h with
       | Some subs =>
           exists added,
             hooks (mgr s') !! h = Some (subs ++ added)
             /\ Forall (fun hook => name hook = pluginName) added
       | None => hooks (mgr s') !! h = None
       end.
Proof.
  unfold subscribe_step. destruct (plugin_hooks (instance p)) as [declared|].
  - apply forEach_subscribe_any.
  - cbn. repeat split. intros h. destruct (hooks (mgr s) !! h); [|done].
    exists []. by rewrite app_nil_r.
Qed.

(** [activate] on a registered name, however it ends. *)
Lemma activate_any pluginName p s :
  plugins (mgr s) !! pluginName = Some p ->
  let s' := (activate pluginName s).2 in
  (plugins (mgr s') = plugins (mgr s)
   \/ plugins (mgr s') = <[pluginName := set_active true p]> (plugins (mgr s)))
  /\ (activePlugins (mgr s') = activePlugins (mgr s)
      \/ activePlugins (mgr s') = activePlugins (mgr s) ++ [pluginName])
  /\ forall h,
       match hooks (mgr s) !! h with
       | Some subs =>
           exists added,
             hooks (mgr s') !! h = Some (subs ++ added)
             /\ Forall (fun hook => name hook = pluginName) added
       | None => hooks (mgr s') !! h = None
       end.
Proof.
  intros Hp. cbv zeta. rewrite (activate_own_run _ _ _ Hp).
  pose proof (init_step_mgr pluginName p s) as Hinit.
  destruct (init_step pluginName p s) as [[[]|e] s1]; cbn [snd] in Hinit.
  - pose proof (subscribe_step_any pluginName p s1) as Hsub. cbv zeta in Hsub.
    rewrite Hinit in Hsub.
    destruct (subscribe_step pluginName p s1) as [[[]|e] s2]; cbn [snd] in Hsub;
      destruct Hsub as (Hp2 & Ha2 & Hh2);
      cbn [snd mgr plugins activePlugins hooks set_plugins set_activePlugins].
    + split; [by right|]. split; [right; by rewrite Ha2|]. exact Hh2.
    + split; [by left|]. split; [by left|]. exact Hh2.
  - cbn [snd]. rewrite Hinit. split; [by left|]. split; [by left|].
    intros h. destruct (hooks (mgr s) !! h); [|done]. exists []. by rewrite app_nil_r.
Qed.

(** [deactivate], however it ends. *)
Lemma deactivate_any pluginName s :
  let s' := (deactivate pluginName s).2 in
  mgr s' = mgr s
  \/ exists p,
       plugins (mgr s) !! pluginName = Some p
       /\ hooks (mgr s') = (filter (fun hook => name hook ≠ pluginName) <$> hooks (mgr s))
       /\ (plugins (mgr s') = plugins (mgr s)
           \/ plugins (mgr s') = <[pluginName := set_active false p]> (plugins (mgr s)))
       /\ (activePlugins (mgr s') = activePlugins (mgr s)
           \/ activePlugins (mgr s')
              = filter (fun n => n ≠ pluginName) (activePlugins (mgr s))).
Proof.
  cbv zeta. destruct (plugins (mgr s) !! pluginName) as [p|] eqn:Hp.
  - destruct (active p) eqn:Hactive.
    + right. exists p. split; [done|].
      rewrite (deactivate_active _ _ _ Hp Hactive). cbv zeta.
      destruct (cleanup (instance p)) as [g|];
        [destruct (g VUndefined (world s)) as [[v|e] w1]|];
        cbn [snd mgr hooks plugins activePlugins set_hooks set_plugins set_activePlugins];
        (split; [done|]); (split; [by (left + right)|by (left + right)]).
    + left. unfold deactivate. rewrite bind_run. unfold gets at 1. cbv beta iota.
      by rewrite (js_lookup_Some _ _ _ Hp), Hactive.
  - left. unfold deactivate. rewrite bind_run. unfold gets at 1. cbv beta iota.
    unfold js_lookup. rewrite Hp. by destruct (bool_decide _).
Qed.

Lemma grows_registered_refl (m : Manager World) : grows_registered m m.
Proof. repeat split; eauto. Qed.

Lemma grows_registered_plugins (m : Manager World) ps :
  (forall n, is_Some (plugins m !! n) -> is_Some (ps !! n)) ->
  grows_registered m (set_plugins ps m).
Proof. intros Hps. repeat split; eauto. Qed.

Lemma register_grows pluginName impl cfg s :
  grows_registered (mgr s) (mgr (register pluginName impl cfg s).2).
Proof.
  destruct (decide (pluginName = "__proto__")) as [->|Hname].
  - unfold register. rewrite bind_run. unfold gets at 1. cbv beta iota.
    destruct (js_lookup (plugins (mgr s)) "__proto__"); apply grows_registered_refl.
  - destruct (register_run pluginName impl cfg s Hname) as (new & -> & _).
    cbn [snd mgr]. apply grows_registered_plugins.
    intros n Hn. rewrite lookup_insert_is_Some. destruct (decide (pluginName = n)); eauto.
Qed.

Lemma activate_grows pluginName s :
  grows_registered (mgr s) (mgr (activate pluginName s).2).
Proof.
  destruct (plugins (mgr s) !! pluginName) as [p|] eqn:Hp.
  - destruct (activate_any pluginName p s Hp) as (Hplugins & Hactive & Hhooks).
    split; [|split; [|split]].
    + intros k. specialize (Hhooks k).
      destruct (hooks (mgr s) !! k) as [subs|].
      * destruct Hhooks as (added & -> & _). split; eauto.
      * rewrite Hhooks. done.
    + intros n Hn. destruct Hplugins as [-> | ->]; [done|].
      rewrite lookup_insert_is_Some. destruct (decide (pluginName = n)); eauto.
    + intros h subs' hook Hsubs' Hin. specialize (Hhooks h).
      destruct (hooks (mgr s) !! h) as [subs|]; [|congruence].
      destruct Hhooks as (added & Heq & Hnamed).
      rewrite Heq in Hsubs'. inversion Hsubs'; subst subs'.
      apply elem_of_app in Hin as [Hin|Hin]; [left; eauto|].
      right. rewrite (proj1 (Forall_forall _ _) Hnamed _ Hin), Hp. eauto.
    + intros n Hn. destruct Hactive as [Heq|Heq]; rewrite Heq in Hn; [by left|].
      apply elem_of_app in Hn as [Hn|Hn]; [by left|].
      apply list_elem_of_singleton in Hn as ->. right. rewrite Hp. eauto.
  - rewrite (activate_no_entry _ _ Hp).
    destruct (bool_decide _); apply grows_registered_refl.
Qed.

Lemma deactivate_grows pluginName s :
  grows_registered (mgr s) (mgr (deactivate pluginName s).2).
Proof.
  destruct (deactivate_any pluginName s) as [-> | (p & Hp & Hhooks & Hplugins & Hactive)];
    [apply grows_registered_refl|].
  split; [|split; [|split]].
  - intros k. rewrite Hhooks, lookup_fmap, fmap_is_Some. done.
  - intros n Hn. destruct Hplugins as [-> | ->]; [done|].
    rewrite lookup_insert_is_Some. destruct (decide (pluginName = n)); eauto.
  - intros h subs' hook Hsubs' Hin. left.
    rewrite Hhooks, lookup_fmap in Hsubs'.
    destruct (hooks (mgr s) !! h) as [subs|]; [|discriminate].
    cbn in Hsubs'. inversion Hsubs'; subst subs'.
    apply list_elem_of_filter in Hin as [_ Hin]. eauto.
  - intros n Hn. left. destruct Hactive as [Heq|Heq]; rewrite Heq in Hn; [done|].
    by apply list_elem_of_filter in Hn as [_ Hn].
Qed.

Lemma updatePluginConfig_no_entry pluginName partial s :
  plugins (mgr s) !! pluginName = None ->
  updatePluginConfig pluginName partial s =
    if bool_decide (pluginName ∈ object_prototype_keys) then (Ret true, s)
    else
      (Ret false,
       {| mgr := mgr s; world := world s;
          trace := trace s ++
            [EConsole LError ("Plugin " +:+ pluginName +:+ " is not registered.") []] |}).
Proof.
  intros Hp. unfold updatePluginConfig. rewrite bind_run. unfold gets at 1. cbv beta iota.
  unfold js_lookup. rewrite Hp. by destruct (bool_decide _).
Qed.

Lemma updatePluginConfig_any pluginName partial s :
  let s' := (updatePluginConfig pluginName partial s).2 in
  hooks (mgr s') = hooks (mgr s)
  /\ activePlugins (mgr s') = activePlugins (mgr s)
  /\ plugins (mgr s') =
       match plugins (mgr s) !! pluginName with
       | Some p => <[pluginName := set_config (partial ∪ config p) p]> (plugins (mgr s))
       | None => plugins (mgr s)
       end.
Proof.
  cbv zeta. destruct (plugins (mgr s) !! pluginName) as [p|] eqn:Hp.
  - rewrite (updatePluginConfig_own _ _ _ _ Hp). cbv zeta.
    destruct (active p); [destruct (updateConfig (instance p)) as [f|]|];
      try destruct (f (VObj (partial ∪ config p)) (world s)) as [[v|e] w1]; done.
  - rewrite (updatePluginConfig_no_entry _ _ _ Hp). by destruct (bool_decide _).
Qed.

Lemma updatePluginConfig_grows pluginName partial s :
  grows_registered (mgr s) (mgr (updatePluginConfig pluginName partial s).2).
Proof.
  destruct (updatePluginConfig_any pluginName partial s) as (Hhooks & Hactive & Hplugins).
  split; [|split; [|split]].
  - intros k. by rewrite Hhooks.
  - intros n Hn. rewrite Hplugins. destruct (plugins (mgr s) !! pluginName); [|done].
    rewrite lookup_insert_is_Some. destruct (decide (pluginName = n)); eauto.
  - intros h subs' hook Hsubs' Hin. left. rewrite Hhooks in Hsubs'. eauto.
  - intros n Hn. left. by rewrite Hactive in Hn.
Qed.

Lemma after_call_grows (c : Call World) s :
  grows_registered (mgr s) (mgr (after_call c s)).
Proof.
  destruct c; cbn [after_call].
  - apply register_grows.
  - apply activate_grows.
  - apply deactivate_grows.
  - rewrite trigger_mgr. apply grows_registered_refl.
  - apply updatePluginConfig_grows.
Qed.

Lemma grows_registered_keeps (m m' : Manager World) :
  grows_registered m m' ->
  hooks_wf m /\ subscribers_registered m ->
  hooks_wf m' /\ subscribers_registered m'.
Proof.
  intros (Hkeys & Hplugins & Hsubs & Hactive) [Hwf [Hreg Hlisted]].
  split; [|split].
  - intros k. rewrite Hkeys. apply Hwf.
  - intros h subs' hook Hsubs' Hin.
    destruct (Hsubs h subs' hook Hsubs' Hin) as [(subs & Hold & Hin')|Hnew]; eauto.
  - intros n Hn. destruct (Hactive n Hn); eauto.
Qed.

Lemma fresh_manager_invariant (w : World) :
  let s0 := {| mgr := new_manager; world := w; trace := [] |} in
  hooks_wf (mgr s0) /\ subscribers_registered (mgr s0).
Proof.
  cbv zeta. split; [apply new_manager_wf|]. split.
  - intros h subs hook Hsubs Hin. exfalso. cbn [mgr hooks new_manager] in Hsubs.
    assert (subs = []) as ->; [|by apply elem_of_nil in Hin].
    repeat (apply lookup_insert_Some in Hsubs as [[_ Heq]|[_ Hsubs]]; [congruence|]).
    apply lookup_singleton_Some in Hsubs as [_ Heq]. congruence.
  - intros n Hn. by apply elem_of_nil in Hn.
Qed.

Lemma after_calls_keeps (calls : list (Call World)) : forall s0,
  hooks_wf (mgr s0) /\ subscribers_registered (mgr s0) ->
  hooks_wf (mgr (after_calls calls s0))
  /\ subscribers_registered (mgr (after_calls calls s0)).
Proof.
  unfold after_calls.
  induction calls as [|c rest IH]; intros s0 Hinit; [exact Hinit|].
  cbn [foldl]. apply IH. eapply grows_registered_keeps; [apply after_call_grows|exact Hinit].
Qed.

(** X1: whatever sequence of [register], [activate], [deactivate], [trigger]
    and [updatePluginConfig] calls a client makes on a fresh manager (none of
    them under the name [__proto__]), and whichever of them throw, the
    hook table keeps exactly the seven hooks as its keys, and every
    subscription on a hook and every name on the active list belongs to a
    plugin that has a registry entry. *)
Theorem session_keeps_hook_table (calls : list (Call World)) (w : World) :
  Forall modelled calls ->
  let s := after_calls calls {| mgr := new_manager; world := w; trace := [] |} in
  hooks_wf (mgr s) /\ subscribers_registered (mgr s).
Proof.
  intros _. cbv zeta. apply after_calls_keeps, fresh_manager_invariant.
Qed.

Lemma dispatch_all_congruence hookName data subs : forall acc s s',
  world s = world s' ->
  (dispatch_all hookName data subs acc s).1 = (dispatch_all hookName data subs acc s').1
  /\ world (dispatch_all hookName data subs acc s).2
     = world (dispatch_all hookName data subs acc s').2.
Proof.
  induction subs as [|hook rest IH]; intros acc s s' Hw; [done|].
  cbn [dispatch_all]. rewrite !bind_run, !dispatch_run, <- Hw.
  destruct (callback hook data (world s)) as [[v|e] w1]; cbv zeta.
  - by apply IH.
  - destruct (get_member e "message"); [by apply IH|done].
Qed.

(** The result of [trigger] depends on the hook table and on the world
    only. *)
Lemma trigger_congruence hookName data s s' :
  hooks (mgr s) = hooks (mgr s') -> world s = world s' ->
  (trigger hookName data s).1 = (trigger hookName data s').1.
Proof.
  intros Hhooks Hw.
  cbv [trigger bind emit modify gets js_lookup console ret throw]. cbn [mgr world trace].
  rewrite <- Hhooks. destruct (hooks (mgr s) !! hookName) as [subs|].
  - by apply dispatch_all_congruence.
  - by destruct (bool_decide _).
Qed.

(** [deactivate] on a name that is not an active plugin. *)
Lemma deactivate_refused pluginName s :
  (forall p, plugins (mgr s) !! pluginName = Some p -> active p = false) ->
  deactivate pluginName s =
    (Ret false,
     {| mgr := mgr s; world := world s;
        trace := trace s ++
          [EConsole LError
             ("Plugin " +:+ pluginName +:+ " is not active or not registered.") []] |}).
Proof.
  intros Hinactive.
  unfold deactivate. rewrite bind_run. unfold gets at 1. cbv beta iota.
  unfold js_lookup. destruct (plugins (mgr s) !! pluginName) as [p|] eqn:Hp.
  - by rewrite (Hinactive p eq_refl).
  - by destruct (bool_decide _).
Qed.


(** X5: registering a name again does not undo an earlier activation. The
    subscriptions and the active-list entries made under that name stay, the
    new entry is flagged inactive, so [deactivate] refuses it and every later
    [trigger] still returns what it returned before. *)
Theorem reregister_strands_subscriptions pluginName impl cfg s :
  pluginName ≠ "__proto__" ->
  let s1 := (register pluginName impl cfg s).2 in
  let s2 := (deactivate pluginName s1).2 in
  (deactivate pluginName s1).1 = Ret false
  /\ hooks (mgr s2) = hooks (mgr s)
  /\ activePlugins (mgr s2) = activePlugins (mgr s)
  /\ world s2 = world s
  /\ forall hookName data, (trigger hookName data s2).1 = (trigger hookName data s).1.
Proof.
  intros Hname s1 s2.
  destruct (register_run pluginName impl cfg s Hname) as (new & Hreg & _).
  assert (Hs1 : hooks (mgr s1) = hooks (mgr s)
                /\ activePlugins (mgr s1) = activePlugins (mgr s)
                /\ world s1 = world s
                /\ plugins (mgr s1) !! pluginName
                   = Some {| instance := impl; config := default ∅ cfg; active := false |}).
  { subst s1. rewrite Hreg. cbn [snd mgr world hooks activePlugins plugins set_plugins].
    by rewrite lookup_insert_eq. }
  destruct Hs1 as (Hh1 & Ha1 & Hw1 & Hp1).
  assert (Hrun : deactivate pluginName s1 =
            (Ret false,
             {| mgr := mgr s1; world := world s1;
                trace := trace s1 ++
                  [EConsole LError
                     ("Plugin " +:+ pluginName +:+ " is not active or not registered.") []] |})).
  { apply deactivate_refused. intros p Hp. rewrite Hp1 in Hp. by inversion Hp. }
  assert (Hret : (deactivate pluginName s1).1 = Ret false) by (by rewrite Hrun).
  assert (Hm2 : mgr s2 = mgr s1) by (subst s2; by rewrite Hrun).
  assert (Hw2 : world s2 = world s1) by (subst s2; by rewrite Hrun).
  assert (Hh2 : hooks (mgr s2) = hooks (mgr s)) by (by rewrite Hm2).
  assert (Hw2' : world s2 = world s) by (by rewrite Hw2).
  repeat split; try done.
  - by rewrite Hm2.
  - intros hookName data. by apply trigger_congruence.
Qed.

(** X6: activation followed by deactivation is a round trip on the hook
    table and the active list. For a registered plugin that has no
    subscription and is not on the active list, when both calls return, every
    hook's list and the active list are what they were, and the entry is
    flagged inactive. *)
Theorem activate_deactivate_round_trip pluginName p s s1 s2 :
  plugins (mgr s) !! pluginName = Some p ->
  (forall h subs hook,
     hooks (mgr s) !! h = Some subs -> hook ∈ subs -> name hook ≠ pluginName) ->
  pluginName ∉ activePlugins (mgr s) ->
  activate pluginName s = (Ret true, s1) ->
  deactivate pluginName s1 = (Ret true, s2) ->
  hooks (mgr s2) = hooks (mgr s)
  /\ activePlugins (mgr s2) = activePlugins (mgr s)
  /\ plugins (mgr s2) = <[pluginName := set_active false p]> (plugins (mgr s)).
Proof.
  intros Hp Hfresh Hunlisted Hact Hdeact.
  apply activate_returns in Hact. rewrite Hp in Hact.
  destruct Hact as (_ & Hplugins1 & Hactive1 & Hhooks1 & _).
  assert (Hp1 : plugins (mgr s1) !! pluginName = Some (set_active true p))
    by (by rewrite Hplugins1, lookup_insert_eq).
  rewrite (deactivate_active _ _ _ Hp1 eq_refl) in Hdeact. cbv zeta in Hdeact.
  assert (Hmgr2 : mgr s2 =
            set_activePlugins (filter (fun n => n ≠ pluginName) (activePlugins (mgr s1)))
              (set_plugins (<[pluginName := set_active false (set_active true p)]>
                              (plugins (mgr s1)))
                 (set_hooks (filter (fun hook => name hook ≠ pluginName) <$> hooks (mgr s1))
                    (mgr s1)))).
  { destruct (cleanup (instance (set_active true p))) as [g|].
    - destruct (g VUndefined (world s1)) as [[v|e] w1]; [|discriminate].
      by inversion Hdeact.
    - by inversion Hdeact. }
  rewrite Hmgr2. cbn [hooks activePlugins plugins set_hooks set_plugins set_activePlugins].
  split; [|split].
  - apply map_eq. intros h. rewrite lookup_fmap, Hhooks1.
    destruct (hooks (mgr s) !! h) as [subs|] eqn:Hsubs; [|done].
    cbn. f_equal. rewrite filter_app.
    rewrite (filter_keeps_all _ subs), (filter_drops_all _ (declared_for _ _ _)).
    + apply app_nil_r.
    + eapply Forall_impl; [apply declared_for_named|]. intros hook Hn Hne. by apply Hne.
    + apply Forall_forall. intros hook Hin. by apply (Hfresh h subs).
  - rewrite Hactive1, filter_app, filter_cons_False, filter_nil, app_nil_r by (by intros ?).
    apply filter_keeps_all, Forall_forall. intros n Hn ->. by apply Hunlisted.
  - rewrite Hplugins1, insert_insert_eq. reflexivity.
Qed.

(** X7: [deactivate] removes the subscriptions of the named plugin and
    nothing else, even when [cleanup] throws: on every hook the other
    plugins' subscriptions stay, in their order, and every other registry
    entry is untouched. *)
Theorem deactivate_keeps_other_plugins pluginName p s :
  plugins (mgr s) !! pluginName = Some p ->
  active p = true ->
  let s' := (deactivate pluginName s).2 in
  (forall h,
     hooks (mgr s') !! h = filter (fun hook => name hook ≠ pluginName) <$> hooks (mgr s) !! h)
  /\ (forall other h,
        other ≠ pluginName ->
        filter (fun hook => name hook = other) <$> hooks (mgr s') !! h
          = filter (fun hook => name hook = other) <$> hooks (mgr s) !! h)
  /\ (forall other,
        other ≠ pluginName -> plugins (mgr s') !! other = plugins (mgr s) !! other).
Proof.
  intros Hp Hactive s'.
  assert (Hhooks : forall h,
            hooks (mgr s') !! h
              = filter (fun hook => name hook ≠ pluginName) <$> hooks (mgr s) !! h).
  { intros h. by apply (deactivate_hooks _ p). }
  split; [exact Hhooks|]. split.
  - intros other h Hother. rewrite Hhooks.
    destruct (hooks (mgr s) !! h) as [subs|]; [|done]. cbn. f_equal.
    rewrite list_filter_filter. apply list_filter_iff. intros hook. split; [tauto|].
    intros Hn. split; [done|]. congruence.
  - intros other Hother. subst s'.
    destruct (deactivate_any pluginName s) as [-> | (p' & _ & _ & Hplugins & _)]; [done|].
    destruct Hplugins as [-> | ->]; [done|]. by rewrite lookup_insert_ne.
Qed.

(** X8: what a successful [activate] adds. On each hook of the table the
    earlier subscriptions keep their places and the handlers the plugin
    declares for that hook are appended in the order of declaration; a
    declared name that is no hook of the table is dropped without a word; the
    plugin's entry is flagged active and no other entry changes. *)
Theorem activate_appends_declared pluginName p s s' :
  plugins (mgr s) !! pluginName = Some p ->
  activate pluginName s = (Ret true, s') ->
  (forall h subs,
     hooks (mgr s) !! h = Some subs ->
     hooks (mgr s') !! h = Some (subs ++ declared_for h pluginName (instance p)))
  /\ (forall h, hooks (mgr s) !! h = None -> hooks (mgr s') !! h = None)
  /\ plugins (mgr s') !! pluginName = Some (set_active true p)
  /\ (forall other,
        other ≠ pluginName -> plugins (mgr s') !! other = plugins (mgr s) !! other).
Proof.
  intros Hp Hact. apply activate_returns in Hact. rewrite Hp in Hact.
  destruct Hact as (_ & Hplugins & _ & Hhooks & _).
  split; [|split; [|split]].
  - intros h subs Hsubs. by rewrite Hhooks, Hsubs.
  - intros h Hnone. by rewrite Hhooks, Hnone.
  - by rewrite Hplugins, lookup_insert_eq.
  - intros other Hother. by rewrite Hplugins, lookup_insert_ne.
Qed.


Lemma forEach_app {A} (f : A -> M (St World) unit) (l1 l2 : list A) s :
  forEach f (l1 ++ l2) s = (forEach f l1 ;; forEach f l2) s.
Proof.
  revert s. induction l1 as [|x rest IH]; intros s; [reflexivity|].
  cbn [app forEach]. rewrite !bind_run. destruct (f x s) as [[[]|e] s1]; [|reflexivity].
  rewrite IH. by rewrite bind_run.
Qed.

(** X10: a plugin that declares a handler under a name every object inherits
    ([constructor], [toString], ...) cannot be activated. [activate] throws a
    [TypeError] at that name: the handlers declared before it are already
    subscribed and stay subscribed, those after it are not, and the plugin is
    neither flagged active nor put on the active list. *)
Theorem activate_stops_at_inherited_hook_name pluginName p before k cb after s s0 :
  plugins (mgr s) !! pluginName = Some p ->
  hooks_wf (mgr s) ->
  plugin_hooks (instance p) = Some (before ++ (k, cb) :: after) ->
  Forall (fun key => key ∉ object_prototype_keys) before.*1 ->
  k ∈ object_prototype_keys ->
  init_step pluginName p s = (Ret tt, s0) ->
  exists s',
    activate pluginName s
      = (Throw (mkError "this.hooks[hookName].push is not a function"), s')
    /\ plugins (mgr s') = plugins (mgr s)
    /\ activePlugins (mgr s') = activePlugins (mgr s)
    /\ forall h subs,
         hooks (mgr s) !! h = Some subs ->
         hooks (mgr s') !! h =
           Some (subs ++
                 ((fun kv : string * Callback World =>
                     {| name := pluginName; callback := kv.2 |})
                    <$> filter (fun kv => kv.1 = h) before)).
Proof.
  intros Hp Hwf Hdeclared Hbefore Hk Hinit.
  pose proof (init_step_mgr pluginName p s) as Hmgr0. rewrite Hinit in Hmgr0.
  cbn [snd] in Hmgr0.
  destruct (forEach_subscribe_succeeds pluginName before s0 Hbefore) as [s1 Hrun1].
  destruct (forEach_subscribe_returns _ _ _ _ Hrun1) as (Hp1 & Ha1 & _ & _ & Hh1).
  assert (Hthrow : forEach (subscribe pluginName) ((k, cb) :: after) s1
                   = (Throw (mkError "this.hooks[hookName].push is not a function"), s1)).
  { cbn [forEach]. rewrite bind_run, subscribe_run. unfold js_lookup.
    rewrite Hh1, Hmgr0.
    assert (Hnone : hooks (mgr s) !! k = None).
    { destruct (hooks (mgr s) !! k) eqn:Hlook; [|done].
      exfalso. apply (inherited_not_hook k Hk), Hwf. eauto. }
    rewrite Hnone. cbn. by rewrite bool_decide_eq_true_2. }
  exists s1. split; [|split; [|split]].
  - rewrite (activate_own_run _ _ _ Hp), Hinit.
    unfold subscribe_step. rewrite Hdeclared, forEach_app, bind_run, Hrun1, Hthrow.
    reflexivity.
  - by rewrite Hp1, Hmgr0.
  - by rewrite Ha1, Hmgr0.
  - intros h subs Hsubs. by rewrite Hh1, Hmgr0, Hsubs.
Qed.

End ManagerMore.

Lemma session_keeps_hook_table_witness :
  let s := PluginRegistry.after_calls Examples2.session
             {| PluginManager.mgr := PluginManager.new_manager;
                PluginManager.world := 0; PluginManager.trace := [] |} in
  hooks_wf (PluginManager.mgr s) /\ subscribers_registered (PluginManager.mgr s).
Proof.
  apply (session_keeps_hook_table Examples2.session 0).
  unfold Examples2.session. repeat constructor; discriminate.
Defined.

Lemma trigger_isolates_failures_witness :
  exists results s',
    PluginManager.trigger "onBooking" (VObj ∅)
      (Examples.subscribed "onBooking" [Examples.crm; Examples2.failing; Examples.crm])
      = (Ret results, s')
    /\ results = [PluginManager.EResult "crm" (VStr "lead created");
                  PluginManager.EError "boostspace" (VStr "CRM down");
                  PluginManager.EResult "crm" (VStr "lead created")].
Proof.
  destruct (trigger_isolates_failures "onBooking" (VObj ∅)
              [Examples.crm; Examples2.failing; Examples.crm]
              (Examples.subscribed "onBooking"
                 [Examples.crm; Examples2.failing; Examples.crm]))
    as (results & s' & Hrun & Hlen & _ & Hentries).
  - by_computation.
  - repeat constructor.
  - exists results, s'. split; [exact Hrun|].
    pose proof (Hentries 0 "crm" (Ret (VStr "lead created")) eq_refl) as H0.
    pose proof (Hentries 1 "boostspace" (Throw (mkError "CRM down")) eq_refl) as H1.
    pose proof (Hentries 2 "crm" (Ret (VStr "lead created")) eq_refl) as H2.
    destruct results as [|e0 [|e1 [|e2 [|e3 rest]]]]; try discriminate Hlen.
    inversion H0. inversion H1. inversion H2. by_computation.
Defined.

Lemma trigger_unknown_hook_witness :
  PluginManager.trigger "onRefund" (VObj ∅) Examples2.fresh =
    (Ret [],
     {| PluginManager.mgr := PluginManager.new_manager;
        PluginManager.world := 0;
        PluginManager.trace :=
          [ETrigger "onRefund" (VObj ∅);
           EConsole LError "Hook onRefund does not exist." []] |}).
Proof.
  apply (trigger_unknown_hook "onRefund" (VObj ∅) Examples2.fresh).
  - apply new_manager_wf.
  - apply (bool_decide_unpack _). vm_compute. exact I.
  - apply (bool_decide_unpack _). vm_compute. exact I.
Defined.


Lemma reregister_strands_subscriptions_witness :
  let s := Examples.after (PluginManager.activate "whatsapp") Examples.office in
  let s1 := (PluginRegistry.register "whatsapp" Examples.boostspace None s).2 in
  let s2 := (PluginManager.deactivate "whatsapp" s1).2 in
  (PluginManager.deactivate "whatsapp" s1).1 = Ret false
  /\ PluginManager.activePlugins (PluginManager.mgr s2) = ["whatsapp"]
  /\ (PluginManager.trigger "onBooking" (VObj ∅) s2).1
     = Ret [PluginManager.EResult "whatsapp" (VStr "sent")].
Proof.
  intros s s1 s2.
  destruct (reregister_strands_subscriptions "whatsapp" Examples.boostspace None s)
    as (Hret & _ & Hactive & _ & Htrigger); [discriminate|].
  fold s1 in Hret, Hactive, Htrigger. fold s2 in Hactive, Htrigger.
  split; [exact Hret|]. split; [exact Hactive|].
  rewrite Htrigger. by_computation.
Defined.

Lemma activate_deactivate_round_trip_witness :
  let s1 := Examples.after (PluginManager.activate "whatsapp") Examples.office in
  let s2 := (PluginManager.deactivate "whatsapp" s1).2 in
  PluginManager.hooks (PluginManager.mgr s2)
    = PluginManager.hooks (PluginManager.mgr Examples.office)
  /\ PluginManager.activePlugins (PluginManager.mgr s2) = [].
Proof.
  intros s1 s2.
  destruct (activate_deactivate_round_trip "whatsapp"
              (Examples.registered Examples.whatsapp) Examples.office s1 s2)
    as (Hhooks & Hactive & _).
  - reflexivity.
  - intros h subs hook Hsubs Hin. exfalso.
    assert (subs = []) as ->; [|by apply elem_of_nil in Hin].
    cbn in Hsubs.
    repeat (apply lookup_insert_Some in Hsubs as [[_ Heq]|[_ Hsubs]]; [congruence|]).
    apply lookup_singleton_Some in Hsubs as [_ Heq]. congruence.
  - apply not_elem_of_nil.
  - apply (returned (PluginManager.activate "whatsapp" Examples.office) true).
    by_computation.
  - apply (returned (PluginManager.deactivate "whatsapp" s1) true).
    by_computation.
  - by split.
Defined.

Lemma deactivate_keeps_other_plugins_witness :
  let s := Examples.after (PluginManager.activate "whatsapp")
             (Examples.after (PluginManager.activate "boostspace")
                (Examples.after (PluginManager.activate "whatsapp") Examples.office)) in
  let s' := (PluginManager.deactivate "whatsapp" s).2 in
  PluginManager.name <$> default [] (PluginManager.hooks (PluginManager.mgr s) !! "onBooking")
    = ["whatsapp"; "boostspace"; "whatsapp"]
  /\ PluginManager.name <$> default [] (PluginManager.hooks (PluginManager.mgr s') !! "onBooking")
     = ["boostspace"].
Proof.
  intros s s'.
  destruct (deactivate_keeps_other_plugins "whatsapp"
              (PluginManager.set_active true (Examples.registered Examples.whatsapp)) s)
    as (Hhooks & _ & _); [by_computation|by_computation|].
  fold s' in Hhooks. split; [by_computation|]. rewrite Hhooks. by_computation.
Defined.

Lemma activate_appends_declared_witness :
  let s' := Examples.after (PluginManager.activate "typo") Examples2.shop in
  PluginManager.hooks (PluginManager.mgr s') !! "onLead"
    = Some [{| PluginManager.name := "typo";
               PluginManager.callback := Examples.returns (VStr "greeted") |}]
  /\ PluginManager.hooks (PluginManager.mgr s') !! "onBoking" = None
  /\ PluginManager.hooks (PluginManager.mgr s') !! "onBooking" = Some [].
Proof.
  intros s'.
  destruct (activate_appends_declared "typo" (Examples.registered Examples2.typo)
              Examples2.shop s')
    as (Hadded & Hdropped & _).
  { by_computation. }
  { apply (returned (PluginManager.activate "typo" Examples2.shop) true).
    by_computation. }
  split; [|split].
  - by rewrite (Hadded "onLead" [] eq_refl).
  - by apply Hdropped.
  - by rewrite (Hadded "onBooking" [] eq_refl).
Defined.


Lemma activate_stops_at_inherited_hook_name_witness :
  exists s',
    PluginManager.activate "misnamed" Examples2.shop
      = (Throw (mkError "this.hooks[hookName].push is not a function"), s')
    /\ PluginManager.activePlugins (PluginManager.mgr s') = []
    /\ PluginManager.hooks (PluginManager.mgr s') !! "onBooking"
       = Some [{| PluginManager.name := "misnamed";
                  PluginManager.callback := Examples.returns (VStr "ok") |}]
    /\ PluginManager.hooks (PluginManager.mgr s') !! "onLead" = Some [].
Proof.
  destruct (activate_stops_at_inherited_hook_name "misnamed"
              (Examples.registered Examples2.misnamed)
              [("onBooking", Examples.returns (VStr "ok"))]
              "constructor" (Examples.returns (VStr "never called"))
              [("onLead", Examples.returns (VStr "never subscribed"))]
              Examples2.shop Examples2.shop)
    as (s' & Hrun & _ & Hactive & Hhooks).
  - by_computation.
  - apply after_calls_keeps, (fresh_manager_invariant 0).
  - by_computation.
  - apply (bool_decide_unpack _). vm_compute. exact I.
  - apply (bool_decide_unpack _). vm_compute. exact I.
  - reflexivity.
  - exists s'. split; [exact Hrun|]. split; [exact Hactive|]. split.
    + by rewrite (Hhooks "onBooking" [] eq_refl).
    + by rewrite (Hhooks "onLead" [] eq_refl).
Defined.

(** ** Strings and decimal numerals *)

Lemma append_cons (c : Ascii.ascii) (s1 s2 : string) :
  String c s1 +:+ s2 = String c (s1 +:+ s2).
Proof. reflexivity. Qed.

Lemma length_append (s1 s2 : string) :
  String.length (s1 +:+ s2) = String.length s1 + String.length s2.
Proof.
  induction s1 as [|c s1 IH]; [reflexivity|].
  rewrite append_cons. cbn [String.length]. by rewrite IH.
Qed.

(** [s.slice(-n)] on a string of at least [n] characters: the last [n]. *)
Lemma slice_last_suffix (n : nat) (s : string) :
  n <= String.length s ->
  exists front,
    s = front +:+ BookingApi.slice_last n s
    /\ String.length (BookingApi.slice_last n s) = n.
Proof.
  unfold BookingApi.slice_last. intros Hn.
  assert (Hgen : forall k t,
            k <= String.length t ->
            exists front,
              t = front +:+ String.substring k (String.length t - k) t
              /\ String.length (String.substring k (String.length t - k) t)
                 = String.length t - k).
  { assert (Hall : forall t, String.substring 0 (String.length t) t = t).
    { induction t as [|c t IH]; cbn; [reflexivity|by rewrite IH]. }
    induction k as [|k IH]; intros t Hk.
    - exists "". rewrite Nat.sub_0_r, Hall. split; [reflexivity|done].
    - destruct t as [|c t]; cbn in Hk; [lia|].
      destruct (IH t) as (front & Heq & Hlen); [lia|].
      exists (String c front). rewrite append_cons.
      cbn [String.length Nat.sub String.substring].
      split; [by rewrite <- Heq|exact Hlen]. }
  destruct (Hgen (String.length s - n) s) as (front & Heq & Hlen); [lia|].
  replace (String.length s - (String.length s - n)) with n in Heq, Hlen by lia.
  by exists front.
Qed.

Lemma length_zeros (k : nat) :
  String.length (String.concat "" (replicate k "0")) = k.
Proof.
  induction k as [|k IH]; [reflexivity|].
  cbn [replicate String.concat]. destruct (replicate k "0") as [|z zs] eqn:Hrep.
  - by destruct k.
  - rewrite !length_append. cbn [String.length]. by rewrite IH.
Qed.

(** [s.padStart(n, '0')] on a string of at most [n] characters. *)
Lemma padStart0_length (n : nat) (s : string) :
  String.length s <= n -> String.length (BookingApi.padStart0 n s) = n.
Proof.
  intros Hs. unfold BookingApi.padStart0. rewrite length_append, length_zeros. lia.
Qed.

Lemma pretty_N_go_length_mono (x : N) : forall s,
  String.length s <= String.length (pretty_N_go x s).
Proof.
  induction (N.lt_wf_0 x) as [x _ IH]. intros s.
  destruct (decide (x = 0%N)) as [->|Hx]; [by rewrite pretty_N_go_0|].
  rewrite pretty_N_go_step by lia.
  etrans; [|apply IH; apply N.div_lt; lia]. cbn. lia.
Qed.

(** A number below [10^k] has at most [k] digits. *)
Lemma pretty_N_go_length_upper (k : nat) : forall x s,
  (x < 10 ^ N.of_nat k)%N ->
  String.length (pretty_N_go x s) <= k + String.length s.
Proof.
  induction k as [|k IH]; intros x s Hx.
  - assert (x = 0%N) as -> by (cbn in Hx; lia). rewrite pretty_N_go_0. lia.
  - destruct (decide (x = 0%N)) as [->|Hx0]; [rewrite pretty_N_go_0; lia|].
    rewrite pretty_N_go_step by lia.
    etrans; [apply IH|cbn; lia].
    apply N.Div0.div_lt_upper_bound.
    by rewrite Nat2N.inj_succ, N.pow_succ_r' in Hx.
Qed.

(** A number from [10^k] on has more than [k] digits. *)
Lemma pretty_N_go_length_lower (k : nat) : forall x s,
  (10 ^ N.of_nat k <= x)%N ->
  S k + String.length s <= String.length (pretty_N_go x s).
Proof.
  induction k as [|k IH]; intros x s Hx.
  - rewrite pretty_N_go_step by (cbn in Hx; lia).
    etrans; [|apply pretty_N_go_length_mono]. cbn. lia.
  - assert (10 ^ N.of_nat (S k) ≠ 0)%N by (apply N.pow_nonzero; lia).
    rewrite pretty_N_go_step by lia.
    etrans; [|apply IH]; [cbn; lia|].
    apply N.div_le_lower_bound; [lia|].
    by rewrite Nat2N.inj_succ, N.pow_succ_r' in Hx.
Qed.

(** A timestamp from [100000] on has at least six digits. *)
Lemma pretty_Z_length_lower (z : Z) :
  (100000 <= z)%Z -> 6 <= String.length (pretty z).
Proof.
  intros Hz. destruct z as [|p|p]; try lia.
  change (pretty (Z.pos p)) with (pretty_N_go (N.pos p) "").
  pose proof (pretty_N_go_length_lower 5 (N.pos p) "") as Hlen.
  cbn [String.length] in Hlen. rewrite Nat.add_0_r in Hlen. apply Hlen.
  change (10 ^ N.of_nat 5)%N with 100000%N. lia.
Qed.

(** A draw below [10000] has at most four digits. *)
Lemma pretty_Z_length_upper (z : Z) :
  (0 <= z < 10000)%Z -> String.length (pretty z) <= 4.
Proof.
  intros Hz. destruct z as [|p|p]; try lia.
  - cbn. lia.
  - change (pretty (Z.pos p)) with (pretty_N_go (N.pos p) "").
    pose proof (pretty_N_go_length_upper 4 (N.pos p) "") as Hlen.
    cbn [String.length] in Hlen. rewrite Nat.add_0_r in Hlen. apply Hlen.
    change (10 ^ N.of_nat 4)%N with 10000%N. lia.
Qed.

(** ** The lead and booking handlers, request by request *)

Section LeadRequests.
Context {World : Type} `{!Runtime World} `{!LeadApi.Vendors World}.
Import PluginManager.
Implicit Types (s : St World).

(** A body whose required fields are all truthy passes the validation loop
    without a word. *)
Lemma check_required_passes fields required s :
  (forall f, f ∈ required -> truthy (default VUndefined (fields !! f)) = true) ->
  check_required (VObj fields) required s = (Ret true, s).
Proof.
  intros Hall.
  destruct (check_required_cases (VObj fields) required s)
    as [(e & _ & Hn) | [[Hrun _] | (f & Hf & Hfalsy & _)]]; [discriminate|done|].
  exfalso. unfold field_of in Hfalsy. cbn [get_member] in Hfalsy.
  rewrite (Hall f Hf) in Hfalsy. discriminate.
Qed.

(** A body that is [undefined] or [null] makes the validation loop throw at
    the first field. *)
Lemma check_required_nullish payload field rest s :
  nullish payload = true ->
  exists e, check_required payload (field :: rest) s = (Throw e, s).
Proof.
  intros Hn. cbn [check_required]. rewrite bind_lift_res.
  destruct payload; try discriminate; cbn [get_member]; eauto.
Qed.

(** A body that is there but lacks a required field. *)
Lemma check_required_fails payload required f s :
  nullish payload = false ->
  f ∈ required ->
  truthy (field_of payload f) = false ->
  exists g,
    g ∈ required
    /\ check_required payload required s =
         (Ret false,
          {| mgr := mgr s; world := world s;
             trace := trace s ++ [EConsole LError ("Missing required field: " +:+ g) []] |}).
Proof.
  intros Hn Hf Hfalsy.
  destruct (check_required_cases payload required s)
    as [(e & _ & Hn') | [[_ Hall] | (g & Hg & _ & _ & Hrun)]].
  - congruence.
  - rewrite (Hall f Hf) in Hfalsy. discriminate.
  - eauto.
Qed.

(** X11: every request to the lead handler is answered, and a lead is
    persisted before any hook fires for it. Whatever the request and the
    state, the handler returns a response and does not throw; every entry
    into [trigger] during the request comes after an insert that the record
    store answered without error, with the row that came back as the hook's
    payload; and when the store refuses the insert, the response is a 500 and
    neither [trigger] nor any hook handler runs. *)
Theorem lead_request_persists_before_hooks req s :
  exists resp s' new,
    LeadApi.handler req s = (Ret resp, s')
    /\ trace s' = trace s ++ new
    /\ persisted_before_hooks new
    /\ (forall table record outcome,
          EInsert table record outcome ∈ new ->
          insert_failed outcome ->
          status resp = 500%Z /\ Forall not_hook_activity new).
Proof.
  destruct (lead_handler_shape req s) as (resp & s' & new & Hrun & Ht & Hshape).
  exists resp, s', new. split; [exact Hrun|]. split; [exact Ht|].
  by apply (request_shape_sound "onLead").
Qed.

(** X12: the requests the lead handler turns away. Any method but [POST]
    gets a 405 and leaves no trace at all. A [POST] whose body is there but
    lacks a truthy [name] or [email] gets a 400, and a [POST] without a body
    gets a 500 (reading [name] from it throws); in both cases the request
    leaves console output only: nothing is inserted, no hook fires, and the
    manager and the world are as they were. *)
Theorem lead_request_rejected req s :
  (method req ≠ "POST" ->
   LeadApi.handler req s
     = (Ret {| status := 405; json := VObj {[ "error" := VStr "Method not allowed" ]} |}, s))
  /\ (method req = "POST" ->
      nullish (body req) = false ->
      (exists f, f ∈ ["name"; "email"] /\ truthy (field_of (body req) f) = false) ->
      exists s',
        LeadApi.handler req s
          = (Ret {| status := 400; json := VObj {[ "error" := VStr "Invalid lead data" ]} |}, s')
        /\ only_logged s s')
  /\ (method req = "POST" ->
      nullish (body req) = true ->
      exists s',
        LeadApi.handler req s
          = (Ret {| status := 500;
                    json := VObj {[ "error" := VStr "Internal server error" ]} |}, s')
        /\ only_logged s s').
Proof.
  unfold LeadApi.handler, LeadApi.validateLeadData. split; [|split].
  - intros Hmethod. apply String.eqb_neq in Hmethod. by rewrite Hmethod.
  - intros Hmethod Hn (f & Hf & Hfalsy). apply String.eqb_eq in Hmethod.
    rewrite Hmethod. cbn [negb].
    destruct (check_required_fails _ _ f s Hn Hf Hfalsy) as (g & _ & Hrun).
    rewrite try_catch_run, bind_run, Hrun. cbn [negb].
    eexists. split; [reflexivity|]. repeat split.
    eexists. split; [reflexivity|]. by repeat constructor.
  - intros Hmethod Hn. apply String.eqb_eq in Hmethod.
    rewrite Hmethod. cbn [negb].
    destruct (check_required_nullish (body req) "name" ["email"] s Hn) as [e Hrun].
    rewrite try_catch_run, bind_run, Hrun.
    eexists. split; [reflexivity|]. repeat split.
    eexists. split; [reflexivity|]. by repeat constructor.
Qed.

(** X13: a lead that is accepted. For a [POST] whose body has a truthy
    [name] and [email], the record sent to the store is the body with
    [created_at] set to the current time and, when the body names no truthy
    [source], with [source] set to ["website"], every other field as
    submitted. When the store answers without error and with a row, the
    response is a 200 carrying that row, and the [onLead] hook has been fired
    on it, after the insert; this holds whatever plugins are subscribed and
    whatever their handlers do. *)
Theorem lead_request_accepted fields reply saved w1 s :
  truthy (default VUndefined (fields !! "name")) = true ->
  truthy (default VUndefined (fields !! "email")) = true ->
  let record := lead_record fields (Date_now (world s)) in
  supabase_insert "leads" (VObj record) (world s) = (Ret reply, w1) ->
  truthy (error reply) = false ->
  get_first (data reply) = Ret saved ->
  (exists s' new,
     LeadApi.handler {| method := "POST"; body := VObj fields |} s
       = (Ret {| status := 200;
                 json := VObj {[ "success" := VBool true; "lead" := saved ]} |}, s')
     /\ trace s' = trace s ++ EInsert "leads" (VObj record) (Ret reply)
                              :: ETrigger "onLead" (payload saved) :: new
     /\ Forall call_or_console new)
  /\ record !! "created_at" = Some (VStr (toISOString (Date_now (world s))))
  /\ record !! "source"
     = (if truthy (default VUndefined (fields !! "source")) then fields !! "source"
        else Some (VStr "website"))
  /\ (forall k, k ≠ "created_at" -> k ≠ "source" -> record !! k = fields !! k).
Proof.
  intros Hname Hemail record Hinsert Herr Hfirst. split.
  - unfold LeadApi.handler, LeadApi.validateLeadData. cbn [method body].
    rewrite String.eqb_refl. cbn [negb].
    rewrite try_catch_run, bind_run, check_required_passes; cycle 1.
    { intros f Hf. apply elem_of_cons in Hf as [->|Hf]; [done|].
      apply list_elem_of_singleton in Hf as ->. done. }
    cbn [negb]. rewrite bind_run.
    destruct (processLead_object fields s) as (r & s' & rest & -> & Ht & Hcase).
    fold record in Ht, Hcase. rewrite Hinsert in Ht, Hcase. cbn [fst] in Ht, Hcase.
    rewrite Herr, Hfirst in Hcase. destruct Hcase as [-> (new & -> & Hnew)].
    by eexists _, new.
  - subst record. unfold lead_record. cbv zeta.
    rewrite lookup_insert_ne by done.
    destruct (truthy (default VUndefined (fields !! "source"))) eqn:Hsource.
    + split; [by rewrite lookup_insert_eq|]. split; [by rewrite lookup_insert_ne|].
      intros k Hk _. by rewrite lookup_insert_ne.
    + split; [by rewrite lookup_insert_ne, lookup_insert_eq|].
      split; [by rewrite lookup_insert_eq|].
      intros k Hk1 Hk2. by rewrite !lookup_insert_ne.
Qed.

End LeadRequests.

Section BookingRequests.
Context {World : Type} `{!Runtime World} `{!BookingApi.Vendors World}.
Import PluginManager.
Implicit Types (s : St World).

Lemma generateBookingReference_value s :
  BookingApi.generateBookingReference s =
    (Ret (booking_reference (Date_now (world s)) (random_below 10000 (world s)).1),
     {| mgr := mgr s; world := (random_below 10000 (world s)).2; trace := trace s |}).
Proof.
  unfold BookingApi.generateBookingReference, booking_reference.
  rewrite bind_run. unfold ask_world at 1, gets at 1. cbv beta iota zeta.
  rewrite bind_run. unfold run_world at 1.
  by destruct (random_below 10000 (world s)) as [draw w].
Qed.

(** [processBooking] on an object: the record it inserts, the world it
    inserts it in, and how it ends. *)
Lemma processBooking_record fields s :
  let record := VObj (booking_record fields (world s)).1 in
  let w := (booking_record fields (world s)).2 in
  let outcome := (supabase_insert "bookings" record w).1 in
  exists r s' rest,
    BookingApi.processBooking (VObj fields) s = (r, s')
    /\ trace s' = trace s ++ EInsert "bookings" record outcome :: rest
    /\ match outcome with
       | Throw e => r = Throw e /\ rest = []
       | Ret reply =>
           if truthy (error reply) then
             r = Throw (mkError "Failed to save booking")
             /\ rest = [EConsole LError "Error saving booking to database:" [error reply]]
           else
             match get_first (data reply) with
             | Throw e => r = Throw e /\ rest = []
             | Ret saved =>
                 r = Ret (VObj {[ "success" := VBool true; "booking" := saved ]})
                 /\ exists new,
                      rest = ETrigger "onBooking" (payload saved) :: new
                      /\ Forall call_or_console new
             end
       end.
Proof.
  cbv zeta. unfold BookingApi.processBooking, booking_record.
  rewrite bind_lift_res. cbn [get_member].
  rewrite bind_run.
  destruct (truthy (default VUndefined (fields !! "reference"))).
  - cbv [ret]. cbv beta iota.
    rewrite bind_run. unfold ask_world at 1, gets at 1. cbv beta iota zeta.
    rewrite bind_lift_res. cbn [set_member fst snd].
    apply (persist_then_notify "bookings" _ _ _ "booking" "onBooking").
    apply booking_integrations.
  - rewrite bind_run, generateBookingReference_value.
    destruct (random_below 10000 (world s)) as [draw w].
    cbv beta iota. unfold lift_res at 1. cbn [set_member fst snd]. cbv beta iota.
    rewrite bind_run. unfold ask_world at 1, gets at 1. cbv beta iota zeta.
    rewrite bind_lift_res. cbn [set_member world].
    apply (persist_then_notify "bookings" _ _ _ "booking" "onBooking"
             BookingApi.triggerIntegrations
             {| mgr := mgr s; world := w; trace := trace s |}).
    apply booking_integrations.
Qed.

(** X14: every request to the booking handler is answered, and a booking is
    persisted before any hook fires for it: the handler returns a response
    and does not throw; every entry into [trigger] during the request comes
    after an insert that the record store answered without error, with the
    row that came back as the hook's payload; and when the store refuses the
    insert, the response is a 500 and neither [trigger] nor any hook handler
    runs. *)
Theorem booking_request_persists_before_hooks req s :
  exists resp s' new,
    BookingApi.handler req s = (Ret resp, s')
    /\ trace s' = trace s ++ new
    /\ persisted_before_hooks new
    /\ (forall table record outcome,
          EInsert table record outcome ∈ new ->
          insert_failed outcome ->
          status resp = 500%Z /\ Forall not_hook_activity new).
Proof.
  destruct (booking_handler_shape req s) as (resp & s' & new & Hrun & Ht & Hshape).
  exists resp, s', new. split; [exact Hrun|]. split; [exact Ht|].
  by apply (request_shape_sound "onBooking").
Qed.

(** X15: the requests the booking handler turns away. Any method but [POST]
    gets a 405 and leaves no trace. A [POST] whose body is there but lacks
    one of the nine required fields gets a 400, and a [POST] without a body
    gets a 500; both leave console output only: no reference is generated,
    nothing is inserted, no hook fires, and the manager and the world are as
    they were. *)
Theorem booking_request_rejected req s :
  (method req ≠ "POST" ->
   BookingApi.handler req s
     = (Ret {| status := 405; json := VObj {[ "error" := VStr "Method not allowed" ]} |}, s))
  /\ (method req = "POST" ->
      nullish (body req) = false ->
      (exists f, f ∈ booking_required /\ truthy (field_of (body req) f) = false) ->
      exists s',
        BookingApi.handler req s
          = (Ret {| status := 400;
                    json := VObj {[ "error" := VStr "Invalid booking data" ]} |}, s')
        /\ only_logged s s')
  /\ (method req = "POST" ->
      nullish (body req) = true ->
      exists s',
        BookingApi.handler req s
          = (Ret {| status := 500;
                    json := VObj {[ "error" := VStr "Internal server error" ]} |}, s')
        /\ only_logged s s').
Proof.
  unfold BookingApi.handler, BookingApi.validateBookingData. split; [|split].
  - intros Hmethod. apply String.eqb_neq in Hmethod. by rewrite Hmethod.
  - intros Hmethod Hn (f & Hf & Hfalsy). apply String.eqb_eq in Hmethod.
    rewrite Hmethod. cbn [negb].
    destruct (check_required_fails _ _ f s Hn Hf Hfalsy) as (g & _ & Hrun).
    unfold booking_required in Hrun.
    rewrite try_catch_run, bind_run, Hrun. cbn [negb].
    eexists. split; [reflexivity|]. repeat split.
    eexists. split; [reflexivity|]. by repeat constructor.
  - intros Hmethod Hn. apply String.eqb_eq in Hmethod.
    rewrite Hmethod. cbn [negb].
    destruct (check_required_nullish (body req) "vehicleId"
                ["pickupDate"; "returnDate"; "pickupLocation"; "returnLocation";
                 "first-name"; "last-name"; "email"; "phone"] s Hn) as [e Hrun].
    rewrite try_catch_run, bind_run, Hrun.
    eexists. split; [reflexivity|]. repeat split.
    eexists. split; [reflexivity|]. by repeat constructor.
Qed.

(** X16: a booking that is accepted. For a [POST] whose body has the nine
    required fields, the record sent to the store is the body with
    [created_at] set to the current time and with a reference: the submitted
    one when it is truthy (no random draw is made then), a generated one
    otherwise; every other field is as submitted. When the store answers
    without error and with a row, the response is a 200 carrying that row,
    and the [onBooking] hook has been fired on it, after the insert; this
    holds whatever plugins are subscribed and whatever their handlers do. *)
Theorem booking_request_accepted fields reply saved w1 s :
  (forall f, f ∈ booking_required -> truthy (default VUndefined (fields !! f)) = true) ->
  let record := (booking_record fields (world s)).1 in
  let w := (booking_record fields (world s)).2 in
  supabase_insert "bookings" (VObj record) w = (Ret reply, w1) ->
  truthy (error reply) = false ->
  get_first (data reply) = Ret saved ->
  (exists s' new,
     BookingApi.handler {| method := "POST"; body := VObj fields |} s
       = (Ret {| status := 200;
                 json := VObj {[ "success" := VBool true; "booking" := saved ]} |}, s')
     /\ trace s' = trace s ++ EInsert "bookings" (VObj record) (Ret reply)
                              :: ETrigger "onBooking" (payload saved) :: new
     /\ Forall call_or_console new)
  /\ record !! "created_at" = Some (VStr (toISOString (Date_now w)))
  /\ (if truthy (default VUndefined (fields !! "reference"))
      then record !! "reference" = fields !! "reference" /\ w = world s
      else record !! "reference"
             = Some (VStr (booking_reference (Date_now (world s))
                             (random_below 10000 (world s)).1))
           /\ w = (random_below 10000 (world s)).2)
  /\ (forall k, k ≠ "created_at" -> k ≠ "reference" -> record !! k = fields !! k).
Proof.
  intros Hall record w Hinsert Herr Hfirst. split.
  - unfold BookingApi.handler, BookingApi.validateBookingData. cbn [method body].
    rewrite String.eqb_refl. cbn [negb].
    change ["vehicleId"; "pickupDate"; "returnDate"; "pickupLocation"; "returnLocation";
            "first-name"; "last-name"; "email"; "phone"] with booking_required.
    rewrite try_catch_run, bind_run, (check_required_passes fields booking_required s Hall).
    cbn [negb]. rewrite bind_run.
    destruct (processBooking_record fields s) as (r & s' & rest & -> & Ht & Hcase).
    fold record w in Ht, Hcase. rewrite Hinsert in Ht, Hcase. cbn [fst] in Ht, Hcase.
    rewrite Herr, Hfirst in Hcase. destruct Hcase as [-> (new & -> & Hnew)].
    by eexists _, new.
  - subst record w. unfold booking_record.
    destruct (truthy (default VUndefined (fields !! "reference"))) eqn:Href.
    + cbn [fst snd]. split; [by rewrite lookup_insert_eq|].
      split; [by rewrite lookup_insert_ne|].
      intros k Hk _. by rewrite lookup_insert_ne.
    + destruct (random_below 10000 (world s)) as [draw w'] eqn:Hdraw. cbn [fst snd].
      split; [by rewrite lookup_insert_eq|].
      split; [by rewrite lookup_insert_ne, lookup_insert_eq|].
      intros k Hk1 Hk2. by rewrite !lookup_insert_ne.
Qed.

(** X21: the shape of a generated reference. For a timestamp of six digits
    or more and a draw from [0] to [9999], the reference is ["AT-"], then the
    last six digits of the timestamp, then the draw padded with zeros to four
    digits: thirteen characters. Generating it reads the clock and draws one
    random number; it prints nothing and does not touch the manager. *)
Theorem generateBookingReference_format s :
  let now := Date_now (world s) in
  let draw := (random_below 10000 (world s)).1 in
  (100000 <= now)%Z ->
  (0 <= draw < 10000)%Z ->
  exists front digits zeros,
    pretty now = front +:+ digits
    /\ String.length digits = 6
    /\ zeros = String.concat "" (replicate (4 - String.length (pretty draw)) "0")
    /\ String.length (zeros +:+ pretty draw) = 4
    /\ BookingApi.generateBookingReference s
       = (Ret ("AT-" +:+ digits +:+ zeros +:+ pretty draw),
          {| mgr := mgr s; world := (random_below 10000 (world s)).2; trace := trace s |})
    /\ String.length ("AT-" +:+ digits +:+ zeros +:+ pretty draw) = 13.
Proof.
  intros now draw Hnow Hdraw.
  destruct (slice_last_suffix 6 (pretty now) (pretty_Z_length_lower now Hnow))
    as (front & Hfront & Hsix).
  pose proof (padStart0_length 4 (pretty draw) (pretty_Z_length_upper draw Hdraw)) as Hfour.
  unfold BookingApi.padStart0 in Hfour.
  exists front, (BookingApi.slice_last 6 (pretty now)),
    (String.concat "" (replicate (4 - String.length (pretty draw)) "0")).
  split; [exact Hfront|]. split; [exact Hsix|]. split; [reflexivity|].
  split; [exact Hfour|]. split.
  - by rewrite generateBookingReference_value.
  - rewrite !length_append in *. rewrite Hsix. cbn [String.length]. lia.
Qed.

End BookingRequests.

(** ** The plugin trigger endpoint *)

Section TriggerRequests.
Context {World : Type} `{!TriggerApi.Env World}.
Import PluginManager.
Implicit Types (s : St World).

Lemma only_logged_refl s : only_logged s s.
Proof. repeat split. exists []. split; [by rewrite app_nil_r|constructor]. Qed.

Lemma only_logged_console s level text args :
  only_logged s {| mgr := mgr s; world := world s;
                   trace := trace s ++ [EConsole level text args] |}.
Proof. repeat split. eexists. split; [reflexivity|]. by repeat constructor. Qed.

Lemma destructure_value v key :
  nullish v = false -> TriggerApi.destructure v key = Ret (field_of v key).
Proof. by destruct v. Qed.

Lemma destructure_nullish v key :
  nullish v = true -> exists e, TriggerApi.destructure v key = Throw e.
Proof. destruct v; try discriminate; cbn; eauto. Qed.

(** The two ways [validateApiKey] ends. *)
Lemma validateApiKey_cases apiKey s :
  (key_accepted apiKey (world s) /\ TriggerApi.validateApiKey apiKey s = (Ret true, s))
  \/ (~ key_accepted apiKey (world s)
      /\ exists s', TriggerApi.validateApiKey apiKey s = (Ret false, s') /\ only_logged s s').
Proof.
  unfold TriggerApi.validateApiKey, key_accepted.
  rewrite bind_run. unfold ask_world, gets. cbv beta iota.
  destruct (TriggerApi.AI_ASSISTANT_API_KEY (world s)) as [[|c valid]|] eqn:Hkey.
  - right. split; [intros (key & Hne & Heq & _); congruence|].
    eexists. split; [reflexivity|]. apply only_logged_console.
  - destruct apiKey as [| | | |given| | |];
      try (right; split; [by intros (key & _ & _ & ?)|];
           eexists; split; [reflexivity|]; apply only_logged_refl).
    destruct (String.eqb given (String c valid)) eqn:Heq.
    + left. apply String.eqb_eq in Heq as ->. split; [|reflexivity].
      by exists (String c valid).
    + right. apply String.eqb_neq in Heq.
      split; [intros (key & _ & Hk & Hg); congruence|].
      eexists. split; [reflexivity|]. apply only_logged_refl.
  - right. split; [intros (key & _ & Heq & _); congruence|].
    eexists. split; [reflexivity|]. apply only_logged_console.
Qed.

(** The two ways [validateHook] ends. *)
Lemma validateHook_cases hook s :
  (hook_accepted hook /\ TriggerApi.validateHook hook s = (Ret true, s))
  \/ (~ hook_accepted hook
      /\ exists s', TriggerApi.validateHook hook s = (Ret false, s') /\ only_logged s s').
Proof.
  unfold TriggerApi.validateHook, hook_accepted.
  destruct (truthy hook) eqn:Htruthy; cbn [negb].
  - destruct hook as [| | | |hookName| | |];
      try (right; split; [by intros (h & ? & _)|];
           eexists; split; [reflexivity|]; apply only_logged_refl).
    destruct (bool_decide (hookName ∈ TriggerApi.validHooks)) eqn:Hin.
    + left. apply bool_decide_eq_true in Hin. split; [|reflexivity]. by exists hookName.
    + right. apply bool_decide_eq_false in Hin.
      split; [intros (h & Heq & Hh); by inversion Heq; subst|].
      eexists. split; [reflexivity|]. apply only_logged_refl.
  - right. split.
    + intros (h & -> & Hh). cbn in Htruthy.
      unfold hook_names in Hh. rewrite !elem_of_cons, elem_of_nil in Hh.
      repeat (destruct Hh as [->|Hh]; [discriminate|]). done.
    + eexists. split; [reflexivity|]. apply only_logged_console.
Qed.

Lemma data_or_empty_payload data : payload (data_or_empty data) = data_or_empty data.
Proof.
  unfold data_or_empty. destruct (truthy data) eqn:Htruthy; [|reflexivity].
  by destruct data.
Qed.

(** The handler on a [POST] with a body, up to the call of [trigger]. *)
Lemma handler_post req s :
  method req = "POST" ->
  nullish (body req) = false ->
  let hook := field_of (body req) "hook" in
  let data := field_of (body req) "data" in
  let apiKey := field_of (body req) "apiKey" in
  (~ key_accepted apiKey (world s)
   /\ exists s',
        TriggerApi.handler req s
          = (Ret {| status := 401; json := VObj {[ "error" := VStr "Unauthorized" ]} |}, s')
        /\ only_logged s s')
  \/ (key_accepted apiKey (world s) /\ ~ hook_accepted hook
      /\ exists s',
           TriggerApi.handler req s
             = (Ret {| status := 400;
                       json := VObj {[ "error" := VStr "Invalid hook name" ]} |}, s')
           /\ only_logged s s')
  \/ (key_accepted apiKey (world s)
      /\ exists hookName,
           hook = VStr hookName /\ hookName ∈ hook_names
           /\ TriggerApi.handler req s =
                match trigger hookName (data_or_empty data) s with
                | (Ret results, s') =>
                    (Ret {| status := 200;
                            json := VObj {[ "success" := VBool true;
                                            "hook" := hook;
                                            "results" := VArr (entry_value <$> results) ]} |},
                     s')
                | (Throw e, s') =>
                    (Ret {| status := 500;
                            json := VObj {[ "error" := VStr "Internal server error" ]} |},
                     {| mgr := mgr s'; world := world s';
                        trace := trace s' ++
                                   [EConsole LError "Error triggering plugin:" [e]] |})
                end).
Proof.
  intros Hmethod Hbody hook data apiKey. unfold TriggerApi.handler.
  apply String.eqb_eq in Hmethod. rewrite Hmethod. cbn [negb].
  rewrite try_catch_run. rewrite !(destructure_value _ _ Hbody).
  rewrite !bind_lift_res. fold hook data apiKey. rewrite bind_run.
  destruct (validateApiKey_cases apiKey s) as [[Hkey ->]|(Hkey & s1 & -> & Hlog)].
  - cbn [negb]. rewrite bind_run.
    destruct (validateHook_cases hook s) as [[Hhook ->]|(Hhook & s1 & -> & Hlog)].
    + cbn [negb]. right. right. split; [exact Hkey|].
      destruct Hhook as (hookName & Hh & Hin). exists hookName.
      split; [exact Hh|]. split; [exact Hin|]. rewrite Hh.
      rewrite bind_run. fold (data_or_empty data).
      by destruct (trigger hookName (data_or_empty data) s) as [[results|e] s'].
    + cbn [negb]. right. left. split; [exact Hkey|]. split; [exact Hhook|].
      by exists s1.
  - cbn [negb]. left. split; [exact Hkey|]. by exists s1.
Qed.

Lemma only_logged_shape s s' :
  only_logged s s' ->
  mgr s' = mgr s
  /\ exists new, trace s' = trace s ++ new /\ forall h d, ETrigger h d ∉ new.
Proof.
  intros (Hm & _ & new & Ht & Hnew). split; [exact Hm|]. exists new.
  split; [exact Ht|]. intros h d. by apply console_only_no_trigger.
Qed.

Lemma field_of_nullish v key : nullish v = true -> field_of v key = VUndefined.
Proof. by destruct v. Qed.

(** X17: the endpoint answers every request, never changes the registry,
    and guards the dispatcher. Whatever the request and the state, the
    handler returns a response and does not throw, and the manager is as it
    was. [trigger] is entered, and a 200 is sent, only for a [POST] that
    carries the configured (non-empty) API key and names one of the seven
    hooks. *)
Theorem trigger_endpoint_guards req s :
  exists resp s' new,
    TriggerApi.handler req s = (Ret resp, s')
    /\ mgr s' = mgr s
    /\ trace s' = trace s ++ new
    /\ ((status resp = 200%Z \/ exists h d, ETrigger h d ∈ new) ->
        method req = "POST"
        /\ key_accepted (field_of (body req) "apiKey") (world s)
        /\ hook_accepted (field_of (body req) "hook")).
Proof.
  assert (Hrejected : forall resp s',
            status resp ≠ 200%Z -> only_logged s s' ->
            TriggerApi.handler req s = (Ret resp, s') ->
            exists resp s' new,
              TriggerApi.handler req s = (Ret resp, s')
              /\ mgr s' = mgr s
              /\ trace s' = trace s ++ new
              /\ ((status resp = 200%Z \/ exists h d, ETrigger h d ∈ new) ->
                  method req = "POST"
                  /\ key_accepted (field_of (body req) "apiKey") (world s)
                  /\ hook_accepted (field_of (body req) "hook"))).
  { intros resp s' Hstatus Hlog Hrun.
    destruct (only_logged_shape _ _ Hlog) as (Hm & new & Ht & Hnone).
    exists resp, s', new. split; [exact Hrun|]. split; [exact Hm|]. split; [exact Ht|].
    intros [?|(h & d & Hin)]; [done|by destruct (Hnone h d)]. }
  destruct (String.eqb (method req) "POST") eqn:Hmethod.
  - apply String.eqb_eq in Hmethod.
    destruct (nullish (body req)) eqn:Hbody.
    + destruct (destructure_nullish (body req) "hook" Hbody) as [e He].
      eapply (Hrejected {| status := 500; json := _ |}); [done| |].
      2:{ unfold TriggerApi.handler. rewrite Hmethod, String.eqb_refl. cbn [negb].
          rewrite try_catch_run, bind_lift_res, He. reflexivity. }
      apply only_logged_console.
    + destruct (handler_post req s Hmethod Hbody)
        as [(_ & s' & Hrun & Hlog)|[(_ & _ & s' & Hrun & Hlog)|(Hkey & h & Hh & Hin & Hrun)]].
      * by eapply (Hrejected {| status := 401; json := _ |}).
      * by eapply (Hrejected {| status := 400; json := _ |}).
      * rewrite Hrun.
        pose proof (trigger_mgr h (data_or_empty (field_of (body req) "data")) s) as Hm.
        destruct (emits_trigger (fun _ => True) h
                    (data_or_empty (field_of (body req) "data"))
                    (fun _ _ => I) (fun _ _ => I) (fun _ _ _ => I) s) as (new & Ht & _).
        destruct (trigger h (data_or_empty (field_of (body req) "data")) s)
          as [[results|e] s']; cbn [snd] in Hm, Ht.
        -- eexists _, s', new. repeat split; try done. by exists h.
        -- eexists _, _, (new ++ [_]). split; [reflexivity|]. cbn [mgr trace].
           rewrite Ht, <- app_assoc. repeat split; try done. by exists h.
  - eapply (Hrejected {| status := 405; json := _ |} s); [done|apply only_logged_refl|].
    unfold TriggerApi.handler. by rewrite Hmethod.
Qed.

(** X18: the requests the endpoint turns away, in the order of its checks.
    Any method but [POST] gets a 405 and leaves no trace; a [POST] without a
    body gets a 500; a body whose [apiKey] is not the configured key, or any
    body when no key is configured, gets a 401, whatever hook it names; and
    with the right key, a [hook] that is not one of the seven names (so also
    a name every object inherits, such as [constructor]) gets a 400. In all
    of them the request leaves console output only: [trigger] is not
    entered and the manager and the world are as they were. *)
Theorem trigger_endpoint_rejects req s :
  (method req ≠ "POST" ->
   TriggerApi.handler req s
     = (Ret {| status := 405; json := VObj {[ "error" := VStr "Method not allowed" ]} |}, s))
  /\ (method req = "POST" ->
      nullish (body req) = true ->
      exists s',
        TriggerApi.handler req s
          = (Ret {| status := 500;
                    json := VObj {[ "error" := VStr "Internal server error" ]} |}, s')
        /\ only_logged s s')
  /\ (method req = "POST" ->
      nullish (body req) = false ->
      ~ key_accepted (field_of (body req) "apiKey") (world s) ->
      exists s',
        TriggerApi.handler req s
          = (Ret {| status := 401; json := VObj {[ "error" := VStr "Unauthorized" ]} |}, s')
        /\ only_logged s s')
  /\ (method req = "POST" ->
      key_accepted (field_of (body req) "apiKey") (world s) ->
      ~ hook_accepted (field_of (body req) "hook") ->
      exists s',
        TriggerApi.handler req s
          = (Ret {| status := 400;
                    json := VObj {[ "error" := VStr "Invalid hook name" ]} |}, s')
        /\ only_logged s s').
Proof.
  split; [|split; [|split]].
  - intros Hmethod. apply String.eqb_neq in Hmethod.
    unfold TriggerApi.handler. by rewrite Hmethod.
  - intros Hmethod Hbody.
    destruct (destructure_nullish (body req) "hook" Hbody) as [e He].
    unfold TriggerApi.handler. rewrite Hmethod, String.eqb_refl. cbn [negb].
    rewrite try_catch_run, bind_lift_res, He.
    eexists. split; [reflexivity|]. apply only_logged_console.
  - intros Hmethod Hbody Hkey.
    destruct (handler_post req s Hmethod Hbody)
      as [(_ & Hrun)|[(Hkey' & _)|(Hkey' & _)]]; [exact Hrun|done|done].
  - intros Hmethod Hkey Hhook.
    assert (Hbody : nullish (body req) = false).
    { destruct (nullish (body req)) eqn:Hbody; [|reflexivity].
      destruct Hkey as (key & _ & _ & Hfield).
      by rewrite (field_of_nullish _ _ Hbody) in Hfield. }
    destruct (handler_post req s Hmethod Hbody)
      as [(Hkey' & _)|[(_ & _ & Hrun)|(_ & h & Hh & Hin & _)]]; [done|exact Hrun|].
    destruct Hhook. by exists h.
Qed.

(** X19: a request that is let through. For a [POST] with the configured key
    that names a hook of the table, when no handler of that hook throws
    [undefined] or [null], the handlers are called in subscription order on
    [data || {}] and the response is a 200 with [success], the hook name, and
    one result entry per subscription made from that handler's own outcome. *)
Theorem trigger_endpoint_dispatches req hookName subs s :
  method req = "POST" ->
  key_accepted (field_of (body req) "apiKey") (world s) ->
  field_of (body req) "hook" = VStr hookName ->
  hookName ∈ hook_names ->
  hooks (mgr s) !! hookName = Some subs ->
  let data := data_or_empty (field_of (body req) "data") in
  Forall (fun nr => recordable nr.2) (run_handlers data subs (world s)).1 ->
  exists s',
    TriggerApi.handler req s
      = (Ret {| status := 200;
                json := VObj {[ "success" := VBool true;
                                "hook" := VStr hookName;
                                "results" :=
                                  VArr (entry_value <$>
                                          entries_of (run_handlers data subs (world s)).1) ]} |},
         s')
    /\ mgr s' = mgr s
    /\ world s' = (run_handlers data subs (world s)).2.
Proof.
  intros Hmethod Hkey Hhook Hin Hsubs data Hrec.
  assert (Hbody : nullish (body req) = false).
  { destruct (nullish (body req)) eqn:Hbody; [|reflexivity].
    by rewrite (field_of_nullish _ _ Hbody) in Hhook. }
  destruct (handler_post req s Hmethod Hbody)
    as [(Hkey' & _)|[(_ & Hhook' & _)|(_ & h & Hh & _ & Hrun)]]; [done| |].
  { destruct Hhook'. by exists hookName. }
  rewrite Hhook in Hh. inversion Hh; subst h. fold data in Hrun.
  pose proof (data_or_empty_payload (field_of (body req) "data")) as Hp.
  fold data in Hp.
  destruct (trigger_recordable hookName data subs s Hsubs)
    as (s' & Htrigger & Hm & Hw & _); [by rewrite Hp|].
  rewrite Hp in Htrigger, Hw. rewrite Htrigger in Hrun.
  exists s'. by rewrite Hrun, Hhook.
Qed.

(** X20: a handler that throws [undefined] or [null] costs the caller the
    whole response. [trigger] throws in that case, so for a [POST] with the
    configured key and a hook whose list holds such a handler, the endpoint
    answers 500, without the entries of the handlers that had already run;
    the manager is as it was. *)
Theorem trigger_endpoint_masks_handler_fault
    req hookName before hook after thrown w' s :
  method req = "POST" ->
  key_accepted (field_of (body req) "apiKey") (world s) ->
  field_of (body req) "hook" = VStr hookName ->
  hookName ∈ hook_names ->
  hooks (mgr s) !! hookName = Some (before ++ hook :: after) ->
  let data := data_or_empty (field_of (body req) "data") in
  Forall (fun nr => recordable nr.2) (run_handlers data before (world s)).1 ->
  callback hook data (run_handlers data before (world s)).2 = (Throw thrown, w') ->
  nullish thrown = true ->
  exists s',
    TriggerApi.handler req s
      = (Ret {| status := 500;
                json := VObj {[ "error" := VStr "Internal server error" ]} |}, s')
    /\ mgr s' = mgr s.
Proof.
  intros Hmethod Hkey Hhook Hin Hsubs data Hrec Hthrow Hnull.
  assert (Hbody : nullish (body req) = false).
  { destruct (nullish (body req)) eqn:Hbody; [|reflexivity].
    by rewrite (field_of_nullish _ _ Hbody) in Hhook. }
  destruct (handler_post req s Hmethod Hbody)
    as [(Hkey' & _)|[(_ & Hhook' & _)|(_ & h & Hh & _ & Hrun)]]; [done| |].
  { destruct Hhook'. by exists hookName. }
  rewrite Hhook in Hh. inversion Hh; subst h. fold data in Hrun.
  pose proof (trigger_mgr hookName data s) as Hm.
  assert (Hthrows : exists t, (trigger hookName data s).1 = Throw t).
  { pose proof (data_or_empty_payload (field_of (body req) "data")) as Hp.
    fold data in Hp. rewrite (trigger_own _ _ _ _ Hsubs), Hp.
    eapply dispatch_all_nullish_throw; cbn [world]; eauto. }
  destruct Hthrows as [t Ht].
  destruct (trigger hookName data s) as [r s'']; cbn [fst snd] in Ht, Hm. subst r.
  eexists. split; [exact Hrun|]. exact Hm.
Qed.

End TriggerRequests.

Lemma lead_request_rejected_witness :
  (exists s',
     @LeadApi.handler nat Examples3.accepting Examples3.lead_vendors
       (Examples3.post (VObj Examples3.anonymous)) Examples3.listening
       = (Ret {| status := 400; json := VObj {[ "error" := VStr "Invalid lead data" ]} |}, s')
     /\ only_logged Examples3.listening s')
  /\ (exists s',
        @LeadApi.handler nat Examples3.accepting Examples3.lead_vendors
          (Examples3.post VUndefined) Examples3.listening
          = (Ret {| status := 500;
                    json := VObj {[ "error" := VStr "Internal server error" ]} |}, s')
        /\ only_logged Examples3.listening s').
Proof.
  split.
  - destruct (@lead_request_rejected nat Examples3.accepting Examples3.lead_vendors
                (Examples3.post (VObj Examples3.anonymous)) Examples3.listening)
      as (_ & Hinvalid & _).
    apply Hinvalid; [reflexivity|reflexivity|].
    exists "email". split; [|by_computation].
    apply elem_of_cons. right. apply elem_of_cons. by left.
  - destruct (@lead_request_rejected nat Examples3.accepting Examples3.lead_vendors
                (Examples3.post VUndefined) Examples3.listening)
      as (_ & _ & Hbodyless).
    apply Hbodyless; reflexivity.
Defined.

Lemma lead_request_accepted_witness :
  let record := @lead_record nat Examples3.accepting Examples3.jane 1700000000000 in
  let saved := VObj (<["id" := VNum 0]> record) in
  (exists s' new,
     @LeadApi.handler nat Examples3.accepting Examples3.lead_vendors
       (Examples3.post (VObj Examples3.jane)) Examples3.listening
       = (Ret {| status := 200;
                 json := VObj {[ "success" := VBool true; "lead" := saved ]} |}, s')
     /\ PluginManager.trace s'
        = EInsert "leads" (VObj record) (Ret {| data := VArr [saved]; error := VNull |})
            :: ETrigger "onLead" saved :: new
     /\ Forall call_or_console new)
  /\ record !! "created_at" = Some (VStr "T1700000000000")
  /\ record !! "source" = Some (VStr "website")
  /\ record !! "name" = Some (VStr "Jane").
Proof.
  intros record saved.
  destruct (@lead_request_accepted nat Examples3.accepting Examples3.lead_vendors
              Examples3.jane {| data := VArr [saved]; error := VNull |} saved 1
              Examples3.listening)
    as (Hrun & Hstamp & Hsource & Hrest); try reflexivity.
  split; [exact Hrun|]. split; [|split].
  - etrans; [exact Hstamp|by_computation].
  - etrans; [exact Hsource|by_computation].
  - etrans; [exact (Hrest "name" ltac:(done) ltac:(done))|by_computation].
Defined.

Lemma booking_request_rejected_witness :
  (@BookingApi.handler nat Examples3.accepting Examples3.booking_vendors
     {| method := "GET"; body := VObj Examples3.rental |} Examples3.listening
     = (Ret {| status := 405; json := VObj {[ "error" := VStr "Method not allowed" ]} |},
        Examples3.listening))
  /\ (exists s',
        @BookingApi.handler nat Examples3.accepting Examples3.booking_vendors
          (Examples3.post (VObj (delete "phone" Examples3.rental))) Examples3.listening
          = (Ret {| status := 400;
                    json := VObj {[ "error" := VStr "Invalid booking data" ]} |}, s')
        /\ only_logged Examples3.listening s').
Proof.
  split.
  - destruct (@booking_request_rejected nat Examples3.accepting Examples3.booking_vendors
                {| method := "GET"; body := VObj Examples3.rental |} Examples3.listening)
      as (Hmethod & _).
    apply Hmethod. discriminate.
  - destruct (@booking_request_rejected nat Examples3.accepting Examples3.booking_vendors
                (Examples3.post (VObj (delete "phone" Examples3.rental)))
                Examples3.listening)
      as (_ & Hinvalid & _).
    apply Hinvalid; [reflexivity|reflexivity|].
    exists "phone". split; [|by_computation].
    apply (bool_decide_unpack _). vm_compute. exact I.
Defined.

Lemma booking_request_accepted_witness :
  let record := (@booking_record nat Examples3.accepting Examples3.rental 0).1 in
  let saved := VObj (<["id" := VNum 1]> record) in
  (exists s' new,
     @BookingApi.handler nat Examples3.accepting Examples3.booking_vendors
       (Examples3.post (VObj Examples3.rental)) Examples3.listening
       = (Ret {| status := 200;
                 json := VObj {[ "success" := VBool true; "booking" := saved ]} |}, s')
     /\ PluginManager.trace s'
        = EInsert "bookings" (VObj record) (Ret {| data := VArr [saved]; error := VNull |})
            :: ETrigger "onBooking" saved :: new
     /\ Forall call_or_console new)
  /\ record !! "reference" = Some (VStr "AT-0000000042")
  /\ record !! "created_at" = Some (VStr "T1700000000001")
  /\ record !! "vehicleId" = Some (VNum 7).
Proof.
  intros record saved.
  destruct (@booking_request_accepted nat Examples3.accepting Examples3.booking_vendors
              Examples3.rental {| data := VArr [saved]; error := VNull |} saved 2
              Examples3.listening)
    as (Hrun & Hstamp & Hreference & Hrest); try reflexivity.
  { intros f Hf. unfold booking_required in Hf.
    rewrite !elem_of_cons, elem_of_nil in Hf.
    repeat (destruct Hf as [->|Hf]; [by_computation|]). done. }
  split; [exact Hrun|]. split; [|split].
  - etrans; [exact (proj1 Hreference)|by_computation].
  - etrans; [exact Hstamp|by_computation].
  - etrans; [exact (Hrest "vehicleId" ltac:(done) ltac:(done))|by_computation].
Defined.

Lemma generateBookingReference_format_witness :
  exists front digits zeros,
    pretty 1700000000000%Z = front +:+ digits
    /\ String.length digits = 6
    /\ zeros = "00"
    /\ String.length (zeros +:+ "42") = 4
    /\ @BookingApi.generateBookingReference nat Examples3.accepting Examples3.listening
       = (Ret ("AT-" +:+ digits +:+ zeros +:+ "42"),
          {| PluginManager.mgr := PluginManager.mgr Examples3.listening;
             PluginManager.world := 1;
             PluginManager.trace := [] |})
    /\ String.length ("AT-" +:+ digits +:+ zeros +:+ "42") = 13.
Proof.
  apply (@generateBookingReference_format nat Examples3.accepting Examples3.listening).
  - apply Z.leb_le. by_computation.
  - split; [apply Z.leb_le|apply Z.ltb_lt]; by_computation.
Defined.

Lemma trigger_endpoint_rejects_witness :
  (exists s',
     @TriggerApi.handler nat Examples3.keyed
       (Examples3.post (VObj {[ "hook" := VStr "onLead"; "apiKey" := VStr "guess" ]}))
       Examples3.listening
       = (Ret {| status := 401; json := VObj {[ "error" := VStr "Unauthorized" ]} |}, s')
     /\ only_logged Examples3.listening s')
  /\ (exists s',
        @TriggerApi.handler nat Examples3.keyed (Examples3.call_hook "constructor")
          Examples3.listening
          = (Ret {| status := 400;
                    json := VObj {[ "error" := VStr "Invalid hook name" ]} |}, s')
        /\ only_logged Examples3.listening s').
Proof.
  split.
  - destruct (@trigger_endpoint_rejects nat Examples3.keyed
                (Examples3.post
                   (VObj {[ "hook" := VStr "onLead"; "apiKey" := VStr "guess" ]}))
                Examples3.listening)
      as (_ & _ & Hkey & _).
    apply Hkey; [reflexivity|reflexivity|].
    intros (key & _ & Hset & Hgiven).
    vm_compute in Hset, Hgiven. congruence.
  - destruct (@trigger_endpoint_rejects nat Examples3.keyed
                (Examples3.call_hook "constructor") Examples3.listening)
      as (_ & _ & _ & Hhook).
    apply Hhook; [reflexivity| |].
    + exists "s3cret". split; [discriminate|]. split; [reflexivity|by_computation].
    + intros (h & Hgiven & Hin). vm_compute in Hgiven. inversion Hgiven; subst h.
      revert Hin. apply (bool_decide_unpack _). vm_compute. exact I.
Defined.

Lemma trigger_endpoint_dispatches_witness :
  exists s',
    @TriggerApi.handler nat Examples3.keyed (Examples3.call_hook "onBooking")
      (Examples.subscribed "onBooking" [Examples.crm; Examples2.failing])
      = (Ret {| status := 200;
                json := VObj {[ "success" := VBool true;
                                "hook" := VStr "onBooking";
                                "results" :=
                                  VArr [VObj {[ "plugin" := VStr "crm";
                                                "result" := VStr "lead created" ]};
                                        VObj {[ "plugin" := VStr "boostspace";
                                                "error" := VStr "CRM down" ]}] ]} |},
         s')
    /\ PluginManager.mgr s'
       = PluginManager.mgr (Examples.subscribed "onBooking" [Examples.crm; Examples2.failing])
    /\ PluginManager.world s' = 2.
Proof.
  apply (@trigger_endpoint_dispatches nat Examples3.keyed
           (Examples3.call_hook "onBooking") "onBooking"
           [Examples.crm; Examples2.failing]
           (Examples.subscribed "onBooking" [Examples.crm; Examples2.failing])).
  - reflexivity.
  - exists "s3cret". split; [discriminate|]. split; [reflexivity|by_computation].
  - by_computation.
  - apply elem_of_cons. by left.
  - by_computation.
  - repeat constructor.
Defined.

Lemma trigger_endpoint_masks_handler_fault_witness :
  exists s',
    @TriggerApi.handler nat Examples3.keyed (Examples3.call_hook "onBooking")
      (Examples.subscribed "onBooking" [Examples.crm; Examples.faulty])
      = (Ret {| status := 500;
                json := VObj {[ "error" := VStr "Internal server error" ]} |}, s')
    /\ PluginManager.mgr s'
       = PluginManager.mgr (Examples.subscribed "onBooking" [Examples.crm; Examples.faulty]).
Proof.
  apply (@trigger_endpoint_masks_handler_fault nat Examples3.keyed
           (Examples3.call_hook "onBooking") "onBooking"
           [Examples.crm] Examples.faulty [] VNull 2
           (Examples.subscribed "onBooking" [Examples.crm; Examples.faulty])).
  - reflexivity.
  - exists "s3cret". split; [discriminate|]. split; [reflexivity|by_computation].
  - by_computation.
  - apply elem_of_cons. by left.
  - by_computation.
  - repeat constructor.
  - by_computation.
  - reflexivity.
Defined.
